(** * VAE-GAN model builder: [vaegan/models.py]

    [create_models] assembles Keras computation graphs.  The values the
    program manipulates are symbolic: layer objects (with an identity and
    a configuration) and tensors (expressions over layer applications and
    backend operations).  The embedding below follows that:

    - every constructor call of a Keras layer allocates a fresh object
      identity from a counter threaded through a state-and-error monad
      ([Build]); the order of allocation is the order in which Python
      evaluates the constructor calls;
    - a symbolic tensor is a term ([tensor]); applying a layer or calling
      a model on a tensor builds a bigger term over the SAME layer
      objects, which is how Keras shares weights;
    - Python floats (the hyper-parameters and the literals [0.5], [1.],
      [0.2]) are modelled by their exact rational value ([Q]) and tensor
      entries by real numbers ([R]): arithmetic is exact, rounding is not
      modelled, except for the one division that can fail, which is also
      treated at binary64 precision ([Binary64]);
    - the builder raises the exceptions of the Python code itself
      (unpacking, indexing, division); the shape checks that Keras runs
      when a layer or a backend operation is applied are not raised by it:
      where the rules of [layer_output_shape] detect an incompatible
      application, the tensor is left without a static shape
      ([int_shape] is [None]);
    - the numerical framework (layer kernels) and the loss imported from
      [.losses] are parameters of the semantics. *)

From Stdlib Require Import String List Bool Arith NArith ZArith QArith Qreals.
From Stdlib Require Import Reals Lqa Lra Lia.
From Stdlib Require Floats.
Import ListNotations.

(** ** Layer objects *)

Inductive padding := PadSame | PadValid.

Inductive activation_fn := Linear | Relu | Tanh | Sigmoid.

(** [kernel_initializer]; Keras' default is ['glorot_uniform']. *)
Inductive initializer := GlorotUniform | HeUniform.

(** [keras.regularizers.l2(c)]. *)
Inductive regularizer := l2 (c : Q).

(** Constructor arguments of the layers used by [models.py].  An argument
    the source does not pass is [None] (the framework default applies). *)
Inductive layer_config :=
| InputLayer (shape : list N)
| Conv2D (filters kernel_size strides : N) (pad : padding)
         (activation : activation_fn)
         (kernel_regularizer : option regularizer)
         (kernel_initializer : initializer)
| Conv2DTranspose (filters kernel_size strides : N) (pad : padding)
         (activation : activation_fn)
         (kernel_regularizer : option regularizer)
         (kernel_initializer : initializer)
| BatchNormalization (momentum epsilon : option Q)
| Dense (units : N) (activation : activation_fn)
        (kernel_regularizer : option regularizer)
        (kernel_initializer : initializer)
| LeakyReLU (alpha : Q)
| Activation (fn : activation_fn)
| Flatten
| Reshape (target_shape : list N)
| Lambda (output_shape : list N).

(** A layer object: its identity, its [name=] argument if any, and its
    configuration. *)
Record layer := mkLayer {
  layer_id : nat;
  layer_name : option string;
  layer_cfg : layer_config
}.

(** ** Symbolic tensors *)

Inductive tensor :=
| InputTensor (l : layer)                       (* the tensor of an [Input(...)] *)
| Apply (l : layer) (x : tensor)            (* [l(x)] *)
| LambdaOut (l : layer) (body : tensor)     (* what a [Lambda]'s function returned *)
| Const (c : Q)                             (* a Python number *)
| Add (a b : tensor)
| Sub (a b : tensor)
| Mul (a b : tensor)
| Exp (a : tensor)                          (* [K.exp] *)
| Square (a : tensor)                       (* [K.square] *)
| SumLast (a : tensor)                      (* [K.sum(a, axis=-1)] *)
| Mean (a : tensor)                         (* [K.mean(a)] *)
| RandomNormal (batch_of : tensor) (dim : N)
    (* [K.random_normal(shape=(K.shape(batch_of)[0], dim))] *)
| GaussianNLL (a b : tensor).
    (* [mean_gaussian_negative_log_likelihood(a, b)] *)

(** A [Model] (or [Sequential]) object. *)
Record model := mkModel {
  model_name : string;
  inputs : list tensor;
  outputs : list tensor;
  losses : list tensor
}.

(** ** Static shapes ([K.int_shape]): [None] is an unknown dimension. *)

Definition shape := list (option N).

Definition prodN (l : list N) : N := fold_right N.mul 1%N l.

Fixpoint known_dims (s : shape) : option (list N) :=
  match s with
  | [] => Some []
  | Some d :: s' => option_map (cons d) (known_dims s')
  | None :: _ => None
  end.

Definition conv_out (pad : padding) (k s : N) (d : option N) : option N :=
  match d, pad with
  | None, _ => None
  | Some n, PadSame => Some ((n + s - 1) / s)%N
  | Some n, PadValid => Some ((n - k) / s + 1)%N
  end.

Definition deconv_out (pad : padding) (k s : N) (d : option N) : option N :=
  match d, pad with
  | None, _ => None
  | Some n, PadSame => Some (n * s)%N
  | Some n, PadValid => Some (n * s + N.max (k - s) 0)%N
  end.

Fixpoint replace_last (u : N) (s : shape) : option shape :=
  match s with
  | [] => None
  | [_] => Some [Some u]
  | d :: s' => option_map (cons d) (replace_last u s')
  end.

(** [compute_output_shape] of each layer. *)
Definition layer_output_shape (c : layer_config) (s : shape) : option shape :=
  match c with
  | InputLayer sh => Some (None :: map Some sh)
  | Conv2D f k st p _ _ _ =>
      match s with
      | [b; h; w; _] => Some [b; conv_out p k st h; conv_out p k st w; Some f]
      | _ => None
      end
  | Conv2DTranspose f k st p _ _ _ =>
      match s with
      | [b; h; w; _] => Some [b; deconv_out p k st h; deconv_out p k st w; Some f]
      | _ => None
      end
  | BatchNormalization _ _ => Some s
  | Dense u _ _ _ => replace_last u s
  | LeakyReLU _ => Some s
  | Activation _ => Some s
  | Flatten =>
      match s with
      | b :: rest => option_map (fun ds => [b; Some (prodN ds)]) (known_dims rest)
      | [] => None
      end
  | Reshape tgt =>
      match s with
      | b :: rest =>
          match known_dims rest with
          | Some ds => if (prodN ds =? prodN tgt)%N then Some (b :: map Some tgt) else None
          | None => None
          end
      | [] => None
      end
  | Lambda out => match s with b :: _ => Some (b :: map Some out) | [] => None end
  end.

Definition dim_eqb (a b : option N) : bool :=
  match a, b with
  | Some x, Some y => (x =? y)%N
  | None, None => true
  | _, _ => false
  end.

Fixpoint shape_eqb (s t : shape) : bool :=
  match s, t with
  | [], [] => true
  | a :: s', b :: t' => dim_eqb a b && shape_eqb s' t'
  | _, _ => false
  end.

(** Shape of an element-wise operation: a scalar broadcasts, otherwise the
    two shapes have to agree (the only two cases [models.py] uses). *)
Definition broadcast_shape (s t : shape) : option shape :=
  match s, t with
  | [], _ => Some t
  | _, [] => Some s
  | _, _ => if shape_eqb s t then Some s else None
  end.

Definition bind_opt {A B} (o : option A) (f : A -> option B) : option B :=
  match o with Some a => f a | None => None end.

Fixpoint int_shape (t : tensor) : option shape :=
  match t with
  | InputTensor l => layer_output_shape (layer_cfg l) []
  | Apply l x => bind_opt (int_shape x) (layer_output_shape (layer_cfg l))
  | LambdaOut l body =>
      bind_opt (int_shape body) (layer_output_shape (layer_cfg l))
  | Const _ => Some []
  | Add a b | Sub a b | Mul a b =>
      bind_opt (int_shape a) (fun s =>
      bind_opt (int_shape b) (fun u => broadcast_shape s u))
  | Exp a | Square a => int_shape a
  | SumLast a => bind_opt (int_shape a) (fun s =>
      match s with [] => None | _ => Some (removelast s) end)
  | Mean _ => Some []
  | RandomNormal b d =>
      bind_opt (int_shape b) (fun s =>
      match s with n :: _ => Some [n; Some d] | [] => None end)
  | GaussianNLL _ _ => Some []
  end.

(** ** The construction monad: object identities and Python exceptions *)

Inductive py_error := ZeroDivisionError | TypeError | IndexError | ValueError.

Inductive result (A : Type) :=
| Ok (a : A)
| Raise (e : py_error).
Arguments Ok {A} a.
Arguments Raise {A} e.

(** [next_id] is the identity of the next object; [created] lists every
    layer object constructed so far, oldest first. *)
Record heap := mkHeap {
  next_id : nat;
  created : list layer
}.

Definition Build (A : Type) := heap -> result (A * heap).

Definition ret {A} (a : A) : Build A := fun h => Ok (a, h).

Definition bind {A B} (m : Build A) (f : A -> Build B) : Build B :=
  fun h => match m h with
           | Ok (a, h') => f a h'
           | Raise e => Raise e
           end.

Definition raise {A} (e : py_error) : Build A := fun _ => Raise e.

Declare Scope build_scope.
Delimit Scope build_scope with build.
Notation "x <- m ;; k" := (bind m (fun x => k))
  (at level 61, m at next level, right associativity) : build_scope.
Notation "' p <- m ;; k" := (bind m (fun x => let p := x in k))
  (at level 61, p pattern, m at next level, right associativity) : build_scope.
Open Scope build_scope.

(** Constructing a layer object. *)
Definition new_layer (name : option string) (c : layer_config) : Build layer :=
  fun h =>
    let l := mkLayer (next_id h) name c in
    Ok (l, mkHeap (S (next_id h)) (created h ++ [l])).

Definition empty_heap : heap := mkHeap 0 [].

Definition run {A} (m : Build A) : result A :=
  match m empty_heap with
  | Ok (a, _) => Ok a
  | Raise e => Raise e
  end.

(** Python's float division. *)
Definition py_div (a b : Q) : Build Q :=
  if Qeq_bool b 0 then raise ZeroDivisionError else ret (a / b)%Q.

(** [seq[i]] on a Python sequence. *)
Definition py_index {A} (l : list A) (i : nat) : Build A :=
  match nth_error l i with
  | Some a => ret a
  | None => raise IndexError
  end.

(** [a, b = seq]. *)
Definition py_unpack2 {A} (l : list A) : Build (A * A) :=
  match l with
  | [a; b] => ret (a, b)
  | _ => raise ValueError
  end.

(** ** Keras API used by [models.py] *)

(** [Input(shape=..., name=...)]: a new input layer and its tensor. *)
Definition Input (shape : list N) (name : string) : Build tensor :=
  l <- new_layer (Some name) (InputLayer shape) ;;
  ret (InputTensor l).

(** [Model(inputs, outputs, name=...)]. *)
Definition Model (ins outs : list tensor) (name : string) : model :=
  mkModel name ins outs [].

(** [m.add_loss(l)]. *)
Definition add_loss (m : model) (l : tensor) : model :=
  mkModel (model_name m) (inputs m) (outputs m) (losses m ++ [l]).

(** [Sequential(layers, name=...)], the first layer carrying
    [input_shape=...]: the input layer is created when the model is built,
    after the listed layers, and the layers are applied in order. *)
Definition Sequential (input_shape : list N) (layers : list layer) (name : string)
  : Build model :=
  l <- new_layer None (InputLayer input_shape) ;;
  ret (Model [InputTensor l]
             [fold_left (fun x layer => Apply layer x) layers (InputTensor l)]
             name).

(** Calling a model on new tensors re-applies the model's own layer
    objects: its output terms with its input tensors replaced. *)
Definition tensor_for (id : nat) (ins args : list tensor) : option tensor :=
  let fix go (l : list (tensor * tensor)) :=
    match l with
    | [] => None
    | (InputTensor l0, a) :: rest =>
        if Nat.eqb (layer_id l0) id then Some a else go rest
    | _ :: rest => go rest
    end in
  go (combine ins args).

Fixpoint subst (ins args : list tensor) (t : tensor) : tensor :=
  match t with
  | InputTensor l =>
      match tensor_for (layer_id l) ins args with
      | Some a => a
      | None => t
      end
  | Apply l x => Apply l (subst ins args x)
  | LambdaOut l b => LambdaOut l (subst ins args b)
  | Const c => Const c
  | Add a b => Add (subst ins args a) (subst ins args b)
  | Sub a b => Sub (subst ins args a) (subst ins args b)
  | Mul a b => Mul (subst ins args a) (subst ins args b)
  | Exp a => Exp (subst ins args a)
  | Square a => Square (subst ins args a)
  | SumLast a => SumLast (subst ins args a)
  | Mean a => Mean (subst ins args a)
  | RandomNormal b d => RandomNormal (subst ins args b) d
  | GaussianNLL a b => GaussianNLL (subst ins args a) (subst ins args b)
  end.

Definition call (m : model) (args : list tensor) : list tensor :=
  map (subst (inputs m) args) (outputs m).

(** A model with one output returns the tensor itself. *)
Definition call1 (m : model) (x : tensor) : Build tensor :=
  match call m [x] with
  | [t] => ret t
  | _ => raise TypeError
  end.

(** ** [create_models] *)

Definition image_shape : list N := [64; 64; 3]%N.
Definition n_channels : N := last image_shape 0%N.
Definition n_encoder : N := 1024.
Definition n_discriminator : N := 512.
Definition latent_dim : N := 128.
Definition decode_from_shape : list N := [8; 8; 256]%N.
Definition n_decoder : N := prodN decode_from_shape.
Definition leaky_relu_alpha : Q := 0.2.

(** The reparameterization function wrapped by the [sampler] layer. *)
Definition sampling (args : list tensor) : Build tensor :=
  '(z_mean, z_log_var) <- py_unpack2 args ;;
  match int_shape z_mean with
  | Some s =>
      d <- py_index s 1 ;;
      match d with
      | Some dim =>
          let epsilon := RandomNormal z_mean dim in
          ret (Add z_mean (Mul (Exp (Mul (Const 0.5) z_log_var)) epsilon))
      | None => raise TypeError
      end
  | None => raise ValueError
  end.

(** Calling a [Lambda] layer runs the wrapped function on the arguments. *)
Definition call_lambda (l : layer) (f : list tensor -> Build tensor)
  (args : list tensor) : Build tensor :=
  body <- f args ;;
  ret (LambdaOut l body).

(** [K.mean(-0.5 * K.sum(1 + z_log_var - K.square(z_mean) - K.exp(z_log_var), axis=-1))] *)
Definition kl_loss_of (z_mean z_log_var : tensor) : tensor :=
  Mean (Mul (Const (-0.5))
            (SumLast (Sub (Sub (Add (Const 1) z_log_var) (Square z_mean))
                          (Exp z_log_var)))).

(** The local variables of [create_models] that the returned graphs are
    made of. *)
Record locals := mkLocals {
  encoder : model;
  decoder : model;
  discriminator : model;
  x : tensor;
  z_p : tensor;
  z_mean : tensor;
  z_log_var : tensor;
  z : tensor;
  x_tilde : tensor;
  x_p : tensor;
  dis_x : list tensor;
  dis_x_tilde : list tensor;
  dis_x_p : list tensor;
  dis_nll_loss : tensor;
  kl_loss : tensor;
  normalized_weight : Q;
  encoder_train : model;
  decoder_train : model;
  discriminator_train : model;
  vae : model;
  vaegan : model
}.

Section CreateModels.

Variables wdecay bn_mom bn_eps : Q.

(** [conv_block(x, filters, leaky, transpose)]: the activation object is
    constructed first, then the convolution and the batch normalization
    inside the list display.  With [x = None] the three layers are
    returned, otherwise they are applied to [x]. *)
Definition conv_block (x : option tensor) (filters : N) (leaky transpose : bool)
  : Build (list layer + tensor) :=
  let conv := if transpose then Conv2DTranspose else Conv2D in
  activation <- new_layer None
    (if leaky then LeakyReLU leaky_relu_alpha else Activation Relu) ;;
  c <- new_layer None
    (conv filters 5%N 2%N PadSame Linear (Some (l2 wdecay)) HeUniform) ;;
  b <- new_layer None (BatchNormalization (Some bn_mom) (Some bn_eps)) ;;
  let layers := [c; b; activation] in
  match x with
  | None => ret (inl layers)
  | Some x => ret (inr (fold_left (fun x layer => Apply layer x) layers x))
  end.

(** [conv_block] called with a tensor. *)
Definition conv_block_on (x : tensor) (filters : N) (leaky transpose : bool)
  : Build tensor :=
  r <- conv_block (Some x) filters leaky transpose ;;
  match r with inr t => ret t | inl _ => raise TypeError end.

(** [conv_block(None, ...)]. *)
Definition conv_block_layers (filters : N) (leaky transpose : bool)
  : Build (list layer) :=
  r <- conv_block None filters leaky transpose ;;
  match r with inl ls => ret ls | inr _ => raise TypeError end.

(** [create_encoder()]: three convolution blocks, a dense layer with batch
    normalization and LeakyReLU, and the two linear heads. *)
Definition create_encoder : Build model :=
  enc_input <- Input image_shape "input_image" ;;
  y <- conv_block_on enc_input 64 true false ;;
  y <- conv_block_on y 128 true false ;;
  y <- conv_block_on y 256 true false ;;
  l <- new_layer None Flatten ;;
  let y := Apply l y in
  l <- new_layer None (Dense n_encoder Linear (Some (l2 wdecay)) HeUniform) ;;
  let y := Apply l y in
  l <- new_layer None (BatchNormalization None None) ;;
  let y := Apply l y in
  l <- new_layer None (LeakyReLU leaky_relu_alpha) ;;
  let y := Apply l y in
  l <- new_layer (Some "z_mean"%string) (Dense latent_dim Linear None HeUniform) ;;
  let z_mean := Apply l y in
  l <- new_layer (Some "z_log_var"%string) (Dense latent_dim Linear None HeUniform) ;;
  let z_log_var := Apply l y in
  ret (Model [enc_input] [z_mean; z_log_var] "encoder").

(** The statement [decoder = Sequential([...], name='decoder')]: the
    layers of the list display are constructed left to right. *)
Definition create_decoder : Build model :=
  l1 <- new_layer None (Dense n_decoder Linear (Some (l2 wdecay)) HeUniform) ;;
  l2_ <- new_layer None (BatchNormalization None None) ;;
  l3 <- new_layer None (LeakyReLU leaky_relu_alpha) ;;
  l4 <- new_layer None (Reshape decode_from_shape) ;;
  b1 <- conv_block_layers 256 true true ;;
  b2 <- conv_block_layers 128 true true ;;
  b3 <- conv_block_layers 32 true true ;;
  out <- new_layer (Some "output_image"%string)
    (Conv2D n_channels 5%N 1%N PadSame Tanh (Some (l2 wdecay)) HeUniform) ;;
  Sequential [latent_dim] ([l1; l2_; l3; l4] ++ b1 ++ b2 ++ b3 ++ [out]) "decoder".

(** [create_discriminator()]: of the last [conv_block(None, 256)] only the
    convolution (element 0) is applied; its output is [d_feat]. *)
Definition create_discriminator : Build model :=
  dis_input <- Input image_shape "discriminator_input" ;;
  l <- new_layer None
    (Conv2D 32%N 5%N 1%N PadSame Linear (Some (l2 wdecay)) HeUniform) ;;
  let d := Apply l dis_input in
  l <- new_layer None (LeakyReLU leaky_relu_alpha) ;;
  let d := Apply l d in
  d <- conv_block_on d 128 true false ;;
  d <- conv_block_on d 256 true false ;;
  ls <- conv_block_layers 256 true false ;;
  l <- py_index ls 0 ;;
  let d_feat := Apply l d in
  l <- new_layer None (BatchNormalization (Some bn_mom) (Some bn_eps)) ;;
  let d := Apply l d_feat in
  l <- new_layer None (LeakyReLU leaky_relu_alpha) ;;
  let d := Apply l d in
  l <- new_layer None Flatten ;;
  let d := Apply l d in
  l <- new_layer None (Dense n_discriminator Linear (Some (l2 wdecay)) HeUniform) ;;
  let d := Apply l d in
  l <- new_layer None (BatchNormalization None None) ;;
  let d := Apply l d in
  l <- new_layer None (LeakyReLU leaky_relu_alpha) ;;
  let d := Apply l d in
  l <- new_layer None (Dense 1%N Sigmoid (Some (l2 wdecay)) HeUniform) ;;
  let d := Apply l d in
  ret (Model [dis_input] [d; d_feat] "discriminator").

End CreateModels.

(** The body of [create_models], returning its local variables.  The
    statements run in the order of the source: the sampler layer and the
    decoder are constructed first, then [create_encoder()] and
    [create_discriminator()] are called. *)
Definition create_models_body (recon_vs_gan_weight wdecay bn_mom bn_eps : Q)
  : Build locals :=
  sampler <- new_layer (Some "sampler"%string) (Lambda [latent_dim]) ;;
  decoder <- create_decoder wdecay bn_mom bn_eps ;;
  encoder <- create_encoder wdecay bn_mom bn_eps ;;
  discriminator <- create_discriminator wdecay bn_mom bn_eps ;;
  (* Inputs *)
  x <- Input image_shape "input_image" ;;
  z_p <- Input [latent_dim] "z_p" ;;
  (* Build computational graph *)
  '(z_mean, z_log_var) <- py_unpack2 (call encoder [x]) ;;
  z <- call_lambda sampler sampling [z_mean; z_log_var] ;;
  x_tilde <- call1 decoder z ;;
  x_p <- call1 decoder z_p ;;
  let dis_x := call discriminator [x] in
  let dis_x_tilde := call discriminator [x_tilde] in
  let dis_x_p := call discriminator [x_p] in
  (* Compute losses *)
  a <- py_index dis_x 1 ;;
  b <- py_index dis_x_tilde 1 ;;
  let dis_nll_loss := GaussianNLL a b in
  let kl_loss := kl_loss_of z_mean z_log_var in
  (* Create models for training *)
  o <- py_index dis_x_tilde 1 ;;
  let encoder_train := Model [x] [o] "e" in
  let encoder_train := add_loss encoder_train kl_loss in
  let encoder_train := add_loss encoder_train dis_nll_loss in
  o1 <- py_index dis_x_tilde 0 ;;
  o2 <- py_index dis_x_p 0 ;;
  let decoder_train := Model [x; z_p] [o1; o2] "de" in
  normalized_weight <- py_div recon_vs_gan_weight (1 - recon_vs_gan_weight) ;;
  let decoder_train :=
    add_loss decoder_train (Mul (Const normalized_weight) dis_nll_loss) in
  o1 <- py_index dis_x 0 ;;
  o2 <- py_index dis_x_tilde 0 ;;
  o3 <- py_index dis_x_p 0 ;;
  let discriminator_train := Model [x; z_p] [o1; o2; o3] "di" in
  (* Additional models for testing *)
  let vae := Model [x] [x_tilde] "vae" in
  o <- py_index dis_x_tilde 0 ;;
  let vaegan := Model [x] [o] "vaegan" in
  ret (mkLocals encoder decoder discriminator x z_p z_mean z_log_var z
                x_tilde x_p dis_x dis_x_tilde dis_x_p dis_nll_loss kl_loss
                normalized_weight encoder_train decoder_train
                discriminator_train vae vaegan).

(** The tuple [create_models] returns. *)
Definition returned (g : locals) : list model :=
  [encoder g; decoder g; discriminator g; encoder_train g; decoder_train g;
   discriminator_train g; vae g; vaegan g].

(** [create_models(recon_vs_gan_weight, wdecay, bn_mom, bn_eps)]. *)
Definition create_models (recon_vs_gan_weight wdecay bn_mom bn_eps : Q)
  : Build (list model) :=
  g <- create_models_body recon_vs_gan_weight wdecay bn_mom bn_eps ;;
  ret (returned g).

(** The defaults of the four keyword arguments. *)
Definition default_recon_vs_gan_weight : Q := 1e-6.
Definition default_wdecay : Q := 1e-5.
Definition default_bn_mom : Q := 0.9.
Definition default_bn_eps : Q := 1e-6.

(** ** Tensor values and the meaning of a graph

    A value is an array of reals: its shape and its entries in row-major
    order.  Evaluation of a graph is a function of the weights of the
    layer objects (by identity), of the values fed to the input layers and
    of the noise drawn by [K.random_normal] in this run. *)

Record ndarray := mkArr {
  nd_shape : list nat;
  nd_data : list R
}.

Definition scalar (r : R) : ndarray := mkArr [] [r].

Definition as_scalar (a : ndarray) : option R :=
  match nd_shape a, nd_data a with
  | [], [r] => Some r
  | _, _ => None
  end.

Definition nd_map (f : R -> R) (a : ndarray) : ndarray :=
  mkArr (nd_shape a) (map f (nd_data a)).

Fixpoint zip_with {A B C} (f : A -> B -> C) (l : list A) (m : list B) : list C :=
  match l, m with
  | a :: l', b :: m' => f a b :: zip_with f l' m'
  | _, _ => []
  end.

Fixpoint dims_eqb (s t : list nat) : bool :=
  match s, t with
  | [], [] => true
  | a :: s', b :: t' => Nat.eqb a b && dims_eqb s' t'
  | _, _ => false
  end.

(** Element-wise binary operation: a scalar broadcasts over the other
    operand; two arrays must have the same shape. *)
Definition nd_map2 (f : R -> R -> R) (a b : ndarray) : option ndarray :=
  match as_scalar a, as_scalar b with
  | Some r, _ => Some (mkArr (nd_shape b) (map (f r) (nd_data b)))
  | None, Some r => Some (mkArr (nd_shape a) (map (fun v => f v r) (nd_data a)))
  | None, None =>
      if dims_eqb (nd_shape a) (nd_shape b)
         && Nat.eqb (length (nd_data a)) (length (nd_data b))
      then Some (mkArr (nd_shape a) (zip_with f (nd_data a) (nd_data b)))
      else None
  end.

Definition Rsum (l : list R) : R := fold_right Rplus 0%R l.

(** [n] consecutive rows of [d] entries. *)
Fixpoint chunks (n d : nat) (l : list R) : list (list R) :=
  match n with
  | O => []
  | S n' => firstn d l :: chunks n' d (skipn d l)
  end.

Definition prod_nat (l : list nat) : nat := fold_right Nat.mul 1%nat l.

(** Sum over the last axis. *)
Definition nd_sum_last (a : ndarray) : option ndarray :=
  match nd_shape a with
  | [] => None
  | s =>
      let lead := removelast s in
      Some (mkArr lead (map Rsum (chunks (prod_nat lead) (last s 0%nat) (nd_data a))))
  end.

(** Mean of all entries; an empty array has no mean. *)
Definition nd_mean (a : ndarray) : option ndarray :=
  match nd_data a with
  | [] => None
  | l => Some (scalar (Rsum l / INR (length l)))
  end.

(** A noise draw for [K.random_normal(shape=(batch, dim))]: any real array
    of that shape. *)
Definition is_draw (batch dim : nat) (eps : ndarray) : bool :=
  dims_eqb (nd_shape eps) [batch; dim]
  && Nat.eqb (length (nd_data eps)) (batch * dim).

Section Semantics.

(** The framework: the weights a layer object holds and the forward
    computation of a layer of a given configuration. *)
Variable params : Type.
Variable layer_fwd : layer_config -> params -> ndarray -> ndarray.
(** [mean_gaussian_negative_log_likelihood], defined in [.losses]. *)
Variable nll : ndarray -> ndarray -> R.

Definition weights := nat -> params.
Definition feed_dict := nat -> option ndarray.

Fixpoint eval (W : weights) (feed : feed_dict) (eps : ndarray) (t : tensor)
  : option ndarray :=
  match t with
  | InputTensor l => feed (layer_id l)
  | Apply l a =>
      option_map (layer_fwd (layer_cfg l) (W (layer_id l))) (eval W feed eps a)
  | LambdaOut _ body => eval W feed eps body
  | Const c => Some (scalar (Q2R c))
  | Add a b =>
      bind_opt (eval W feed eps a) (fun u =>
      bind_opt (eval W feed eps b) (fun v => nd_map2 Rplus u v))
  | Sub a b =>
      bind_opt (eval W feed eps a) (fun u =>
      bind_opt (eval W feed eps b) (fun v => nd_map2 Rminus u v))
  | Mul a b =>
      bind_opt (eval W feed eps a) (fun u =>
      bind_opt (eval W feed eps b) (fun v => nd_map2 Rmult u v))
  | Exp a => option_map (nd_map exp) (eval W feed eps a)
  | Square a => option_map (nd_map (fun r => (r * r)%R)) (eval W feed eps a)
  | SumLast a => bind_opt (eval W feed eps a) nd_sum_last
  | Mean a => bind_opt (eval W feed eps a) nd_mean
  | RandomNormal b d =>
      bind_opt (eval W feed eps b) (fun v =>
      match nd_shape v with
      | n :: _ => if is_draw n (N.to_nat d) eps then Some eps else None
      | [] => None
      end)
  | GaussianNLL a b =>
      bind_opt (eval W feed eps a) (fun u =>
      bind_opt (eval W feed eps b) (fun v => Some (scalar (nll u v))))
  end.

Fixpoint eval_all (W : weights) (feed : feed_dict) (eps : ndarray)
  (ts : list tensor) : option (list ndarray) :=
  match ts with
  | [] => Some []
  | t :: ts' =>
      bind_opt (eval W feed eps t) (fun v =>
      option_map (cons v) (eval_all W feed eps ts'))
  end.

(** Feeding the values [vs] to the input tensors [ins]. *)
Fixpoint feed_of (ins : list tensor) (vs : list ndarray) : feed_dict :=
  match ins, vs with
  | InputTensor l :: ins', v :: vs' =>
      fun id => if Nat.eqb (layer_id l) id then Some v else feed_of ins' vs' id
  | _, _ => fun _ => None
  end.

(** Running a model on values for its inputs. *)
Definition predict (W : weights) (m : model) (vs : list ndarray) (eps : ndarray)
  : option (list ndarray) :=
  eval_all W (feed_of (inputs m) vs) eps (outputs m).

End Semantics.

Arguments eval {params} layer_fwd nll W feed eps t.
Arguments eval_all {params} layer_fwd nll W feed eps ts.
Arguments predict {params} layer_fwd nll W m vs eps.

(** Identities of the layer objects whose weights a tensor reads, and of
    the input layers it starts from. *)
Fixpoint tensor_layers (t : tensor) : list layer :=
  match t with
  | InputTensor _ | Const _ => []
  | Apply l a => l :: tensor_layers a
  | LambdaOut l b => l :: tensor_layers b
  | Add a b | Sub a b | Mul a b | GaussianNLL a b =>
      tensor_layers a ++ tensor_layers b
  | Exp a | Square a | SumLast a | Mean a => tensor_layers a
  | RandomNormal b _ => tensor_layers b
  end.

Fixpoint tensor_inputs (t : tensor) : list layer :=
  match t with
  | InputTensor l => [l]
  | Const _ => []
  | Apply _ a | LambdaOut _ a => tensor_inputs a
  | Add a b | Sub a b | Mul a b | GaussianNLL a b =>
      tensor_inputs a ++ tensor_inputs b
  | Exp a | Square a | SumLast a | Mean a => tensor_inputs a
  | RandomNormal b _ => tensor_inputs b
  end.

Definition layer_ids (ts : list tensor) : list nat :=
  nodup Nat.eq_dec (map layer_id (flat_map tensor_layers ts)).

(** The layer objects of a model: those on the way to its outputs and
    bound losses. *)
Definition model_layer_ids (m : model) : list nat :=
  layer_ids (outputs m ++ losses m).

(** ** What the specification says the sampler and the KL loss compute *)

(** One entry of the reparameterized sample:
    [z_mean + exp(0.5 * z_log_var) * epsilon]. *)
Definition reparameterize (m v e : R) : R := (m + exp (0.5 * v) * e)%R.

Fixpoint zip3 {A B C D} (f : A -> B -> C -> D)
  (l1 : list A) (l2 : list B) (l3 : list C) : list D :=
  match l1, l2, l3 with
  | a :: l1', b :: l2', c :: l3' => f a b c :: zip3 f l1' l2' l3'
  | _, _, _ => []
  end.

(** A batch of posterior parameters: one row per sample, one
    [(z_mean, z_log_var)] pair per latent coordinate. *)
Definition posterior_batch := list (list (R * R)).

Definition batch_means (d : nat) (rows : posterior_batch) : ndarray :=
  mkArr [length rows; d] (concat (map (map fst) rows)).

Definition batch_log_vars (d : nat) (rows : posterior_batch) : ndarray :=
  mkArr [length rows; d] (concat (map (map snd) rows)).

(** [-0.5 * sum(1 + z_log_var - z_mean^2 - exp(z_log_var), axis=latent)]
    of one sample. *)
Definition kl_sample (row : list (R * R)) : R :=
  (-0.5 * Rsum (map (fun p => 1 + snd p - fst p * fst p - exp (snd p)) row))%R.

(** The mean of [kl_sample] over the batch. *)
Definition kl_spec (rows : posterior_batch) : R :=
  (Rsum (map kl_sample rows) / INR (length rows))%R.

(** ** Arrays: element-wise operations and sums *)

Lemma dims_eqb_refl (s : list nat) : dims_eqb s s = true.
Proof.
  induction s as [|a s IH]; simpl; [reflexivity|].
  now rewrite Nat.eqb_refl, IH.
Qed.

Lemma dims_eqb_eq (s t : list nat) : dims_eqb s t = true -> s = t.
Proof.
  revert t; induction s as [|a s IH]; intros [|b t]; simpl; try discriminate; auto.
  intros H. apply andb_prop in H as [Hab Hst].
  apply Nat.eqb_eq in Hab. f_equal; auto.
Qed.

Lemma zip_with_map {A B C D} (f : B -> C -> D) (g : A -> B) (h : A -> C) (l : list A) :
  zip_with f (map g l) (map h l) = map (fun a => f (g a) (h a)) l.
Proof. induction l; simpl; congruence. Qed.

Lemma zip_with_length {A B C} (f : A -> B -> C) (l : list A) (m : list B) :
  length l = length m -> length (zip_with f l m) = length l.
Proof.
  revert m; induction l as [|a l IH]; intros [|b m]; simpl; try discriminate; auto.
Qed.

Lemma zip3_length {A B C D} (f : A -> B -> C -> D) l1 l2 l3 :
  length l2 = length l1 -> length l3 = length l1 ->
  length (zip3 f l1 l2 l3) = length l1.
Proof.
  revert l2 l3; induction l1 as [|a l1 IH]; intros [|b l2] [|c l3]; simpl;
    try discriminate; auto.
Qed.

(** An array with at least one axis is not a broadcast scalar. *)
Lemma as_scalar_axis (n : nat) (s : list nat) (l : list R) :
  as_scalar (mkArr (n :: s) l) = None.
Proof. reflexivity. Qed.

Lemma nd_map2_same (f : R -> R -> R) (n : nat) (s : list nat) (l m : list R) :
  length l = length m ->
  nd_map2 f (mkArr (n :: s) l) (mkArr (n :: s) m)
  = Some (mkArr (n :: s) (zip_with f l m)).
Proof.
  intros H. unfold nd_map2. rewrite !as_scalar_axis. cbn [nd_shape nd_data].
  now rewrite dims_eqb_refl, H, Nat.eqb_refl.
Qed.

Lemma nd_map2_scalar_l (f : R -> R -> R) (r : R) (b : ndarray) :
  nd_map2 f (scalar r) b = Some (mkArr (nd_shape b) (map (f r) (nd_data b))).
Proof. reflexivity. Qed.

Lemma chunks_concat (d : nat) (rows : list (list R)) :
  Forall (fun r => length r = d) rows ->
  chunks (length rows) d (concat rows) = rows.
Proof.
  induction 1 as [|r rows Hr _ IH]; simpl; [reflexivity|].
  rewrite firstn_app, skipn_app, Hr, Nat.sub_diag.
  rewrite <- Hr at 1 3. rewrite firstn_all, skipn_all.
  simpl. rewrite app_nil_r, IH. reflexivity.
Qed.

Lemma Rsum_zero (l : list R) : Forall (fun r => r = 0%R) l -> Rsum l = 0%R.
Proof.
  induction 1 as [|r l Hr _ IH]; simpl; [reflexivity|].
  rewrite Hr, IH. lra.
Qed.

Lemma Q2R_one : Q2R 1 = 1%R.
Proof. unfold Q2R; simpl. lra. Qed.

(** ** Evaluation: frame, substitution and model calls *)

Section EvalFacts.

Variable params : Type.
Variable layer_fwd : layer_config -> params -> ndarray -> ndarray.
Variable nll : ndarray -> ndarray -> R.

(** The value of a tensor depends only on the weights of the layers it
    goes through and on what is fed to the inputs it starts from. *)
Lemma eval_ext (W W' : weights params) (feed feed' : feed_dict) (eps : ndarray)
  (t : tensor) :
  (forall l, In l (tensor_layers t) -> W (layer_id l) = W' (layer_id l)) ->
  (forall l, In l (tensor_inputs t) -> feed (layer_id l) = feed' (layer_id l)) ->
  eval layer_fwd nll W feed eps t = eval layer_fwd nll W' feed' eps t.
Proof.
  induction t as [l|l a IH|l b IH|c|a IHa b IHb|a IHa b IHb|a IHa b IHb
                 |a IH|a IH|a IH|a IH|b IH d|a IHa b IHb];
    cbn [eval tensor_layers tensor_inputs]; intros HW HF.
  - apply HF. simpl; auto.
  - rewrite (HW l) by (simpl; auto).
    rewrite IH; [reflexivity| |exact HF]. intros; apply HW; simpl; auto.
  - apply IH; [|exact HF]. intros; apply HW; simpl; auto.
  - reflexivity.
  - rewrite IHa, IHb; [reflexivity| | | |]; intros; auto using in_or_app.
  - rewrite IHa, IHb; [reflexivity| | | |]; intros; auto using in_or_app.
  - rewrite IHa, IHb; [reflexivity| | | |]; intros; auto using in_or_app.
  - rewrite IH; auto.
  - rewrite IH; auto.
  - rewrite IH; auto.
  - rewrite IH; auto.
  - rewrite IH; auto.
  - rewrite IHa, IHb; [reflexivity| | | |]; intros; auto using in_or_app.
Qed.

(** An input that is not fed leaves the tensor without a value. *)
Lemma eval_unfed (W : weights params) (feed : feed_dict) (eps : ndarray)
  (t : tensor) (l : layer) :
  In l (tensor_inputs t) -> feed (layer_id l) = None ->
  eval layer_fwd nll W feed eps t = None.
Proof.
  intros Hin Hf.
  induction t as [l0|l0 a IH|l0 b IH|c|a IHa b IHb|a IHa b IHb|a IHa b IHb
                 |a IH|a IH|a IH|a IH|b IH d|a IHa b IHb];
    cbn [eval tensor_inputs] in *;
    try (rewrite (IH Hin); reflexivity);
    try (apply in_app_or in Hin as [Hin|Hin];
         [rewrite (IHa Hin); reflexivity
         |rewrite (IHb Hin); destruct (eval layer_fwd nll W feed eps a); reflexivity]).
  - destruct Hin as [->|[]]. exact Hf.
  - destruct Hin.
Qed.

(** Substituting tensors for inputs is feeding their values. *)
Lemma eval_subst (W : weights params) (feed : feed_dict) (eps : ndarray)
  (ins args : list tensor) (t : tensor) :
  eval layer_fwd nll W feed eps (subst ins args t)
  = eval layer_fwd nll W
      (fun id => match tensor_for id ins args with
                 | Some a => eval layer_fwd nll W feed eps a
                 | None => feed id
                 end) eps t.
Proof.
  induction t as [l|l a IH|l b IH|c|a IHa b IHb|a IHa b IHb|a IHa b IHb
                 |a IH|a IH|a IH|a IH|b IH d|a IHa b IHb];
    cbn [eval subst];
    try (rewrite IH; reflexivity); try (rewrite IHa, IHb; reflexivity);
    try reflexivity.
  destruct (tensor_for (layer_id l) ins args); reflexivity.
Qed.

(** Calling a one-input model on a tensor [a]: each output is the model's
    own output evaluated on the value of [a]. *)
Lemma eval_call (W W' : weights params) (feed : feed_dict) (eps : ndarray)
  (m : model) (l0 : layer) (a o : tensor) :
  inputs m = [InputTensor l0] ->
  tensor_inputs o <> [] ->
  (forall l, In l (tensor_inputs o) -> layer_id l = layer_id l0) ->
  (forall l, In l (tensor_layers o) -> W (layer_id l) = W' (layer_id l)) ->
  eval layer_fwd nll W feed eps (subst (inputs m) [a] o)
  = bind_opt (eval layer_fwd nll W feed eps a)
      (fun v => eval layer_fwd nll W' (feed_of (inputs m) [v]) eps o).
Proof.
  intros Hin Hne Hids HW. rewrite eval_subst, Hin.
  destruct (eval layer_fwd nll W feed eps a) as [v|] eqn:Ha; cbn [bind_opt].
  - apply eval_ext; [exact HW|].
    intros l Hl. rewrite (Hids l Hl). cbn. now rewrite Nat.eqb_refl.
  - destruct (tensor_inputs o) as [|l ls] eqn:E; [contradiction|].
    apply eval_unfed with (l := l); [rewrite E; simpl; auto|].
    rewrite (Hids l); [|simpl; auto].
    cbn. now rewrite Nat.eqb_refl.
Qed.

End EvalFacts.

(** ** Running [create_models] *)

(** Evaluates a run of the builder in hypothesis [H], leaving the
    arithmetic on the hyper-parameters untouched, and replaces the result
    by the graph that was built. *)
Ltac run_body H :=
  cbv -[Qeq_bool Qminus Qdiv Qplus Qmult Qopp Qinv] in H;
  match type of H with
  | context [Qeq_bool ?a ?b] =>
      let E := fresh "Hdiv" in
      destruct (Qeq_bool a b) eqn:E; [discriminate H|]
  end;
  injection H as <- <-.

Lemma unit_interval_divisor (w : Q) : 0 < w < 1 -> Qeq_bool (1 - w) 0 = false.
Proof.
  intros [H0 H1]. destruct (Qeq_bool (1 - w) 0) eqn:E; [|reflexivity].
  apply Qeq_bool_eq in E. exfalso. Lqa.lra.
Qed.

Lemma body_succeeds (w wd bm be : Q) :
  Qeq_bool (1 - w) 0 = false ->
  exists g h, create_models_body w wd bm be empty_heap = Ok (g, h).
Proof.
  intros H. cbv -[Qeq_bool Qminus Qdiv Qplus Qmult Qopp Qinv].
  rewrite H. eexists. eexists. reflexivity.
Qed.

(** Input and output shapes of a model. *)
Definition model_signature (m : model) : list (option shape) * list (option shape) :=
  (map int_shape (inputs m), map int_shape (outputs m)).

Definition image_sig : option shape := Some [None; Some 64; Some 64; Some 3]%N.
Definition latent_sig : option shape := Some [None; Some 128]%N.
Definition score_sig : option shape := Some [None; Some 1]%N.
Definition feature_sig : option shape := Some [None; Some 8; Some 8; Some 256]%N.

(** C1 (as amended): for every [recon_vs_gan_weight] in (0,1) and any
    other hyper-parameters, [create_models] returns exactly 8 graphs, in
    this order: encoder, decoder, discriminator, the three training
    composites [e], [de], [di] and the two inference composites [vae] and
    [vaegan], with the documented input and output shapes. *)
Theorem create_models_returns_eight_graphs (w wd bm be : Q) :
  0 < w < 1 ->
  exists ms,
    run (create_models w wd bm be) = Ok ms /\
    length ms = 8%nat /\
    map model_name ms
      = ["encoder"; "decoder"; "discriminator"; "e"; "de"; "di"; "vae"; "vaegan"]%string /\
    map model_signature ms
      = [ ([image_sig], [latent_sig; latent_sig]);
          ([latent_sig], [image_sig]);
          ([image_sig], [score_sig; feature_sig]);
          ([image_sig], [feature_sig]);
          ([image_sig; latent_sig], [score_sig; score_sig]);
          ([image_sig; latent_sig], [score_sig; score_sig; score_sig]);
          ([image_sig], [image_sig]);
          ([image_sig], [score_sig]) ].
Proof.
  intros Hw. apply unit_interval_divisor in Hw.
  cbv -[Qeq_bool Qminus Qdiv Qplus Qmult Qopp Qinv].
  rewrite Hw. eexists. split; [reflexivity|].
  split; [reflexivity|]. split; reflexivity.
Qed.

Lemma create_models_returns_eight_graphs_witness :
  exists ms,
    run (create_models (1 # 2) default_wdecay default_bn_mom default_bn_eps) = Ok ms /\
    length ms = 8%nat.
Proof.
  destruct (create_models_returns_eight_graphs (1 # 2) default_wdecay
              default_bn_mom default_bn_eps) as (ms & H1 & H2 & _).
  - split; reflexivity.
  - exists ms. split; assumption.
Defined.

(** C1 (as stated) fails: with the default arguments [create_models]
    returns a tuple of 8 graphs, not 7. *)
Lemma create_models_not_seven_graphs :
  0 < default_recon_vs_gan_weight < 1 /\
  exists ms,
    run (create_models default_recon_vs_gan_weight default_wdecay
           default_bn_mom default_bn_eps) = Ok ms /\
    length ms = 8%nat /\ length ms <> 7%nat.
Proof.
  split; [split; reflexivity|].
  eexists. split; [vm_compute; reflexivity|]. split; [reflexivity|discriminate].
Qed.

(** ** The normalization of [recon_vs_gan_weight] *)

Lemma divisor_zero_iff (w : Q) : Qeq_bool (1 - w) 0 = true <-> w == 1.
Proof.
  split; intros H.
  - apply Qeq_bool_eq in H. Lqa.lra.
  - apply Qeq_eq_bool. Lqa.lra.
Qed.

Lemma divisor_nonzero (w : Q) : ~ w == 1 -> Qeq_bool (1 - w) 0 = false.
Proof.
  intros H. destruct (Qeq_bool (1 - w) 0) eqn:E; [|reflexivity].
  apply divisor_zero_iff in E. contradiction.
Qed.

(** ** The normalization at binary64 precision

    The hyper-parameters are Python floats.  The same statement on the
    kernel's binary64 numbers, with their specification [SpecFloat]:
    the subtraction [1. - w] rounds, but never to zero, because the exact
    difference is a multiple of the unit in the last place of [w]. *)

Module Binary64.

Import PrimFloat SpecFloat FloatOps FloatAxioms.
Local Open Scope Z_scope.

(** Python's float division on binary64 numbers. *)
Definition py_div (a b : PrimFloat.float) : result PrimFloat.float :=
  if PrimFloat.eqb b PrimFloat.zero then Raise ZeroDivisionError
  else Ok (PrimFloat.div a b).

(** [recon_vs_gan_weight / (1. - recon_vs_gan_weight)]. *)
Definition normalized_weight (w : PrimFloat.float) : result PrimFloat.float :=
  py_div w (PrimFloat.sub PrimFloat.one w).

(** The default [recon_vs_gan_weight=1e-6], as the nearest binary64. *)
Definition default_weight : PrimFloat.float := 0x1.0c6f7a0b5ed8dp-20%float.

(** A float that is neither a zero nor a NaN. *)
Definition sf_nonzero (x : spec_float) : Prop :=
  match x with
  | S754_finite _ _ _ | S754_infinity _ => True
  | _ => False
  end.

Lemma digits2_size (m : positive) : digits2_pos m = Pos.size m.
Proof. induction m; simpl; congruence. Qed.

Lemma digits2_lower (m : positive) : 2 ^ (Zpos (digits2_pos m) - 1) <= Zpos m.
Proof.
  rewrite digits2_size.
  pose proof (Pos2Z.pos_le_pos _ _ (Pos.size_le m)) as H'.
  rewrite Pos2Z.inj_pow in H'. change (Zpos m~0) with (2 * Zpos m) in H'.
  replace (Zpos (Pos.size m)) with (Zpos (Pos.size m) - 1 + 1) in H' by lia.
  rewrite Z.pow_add_r, Z.pow_1_r in H' by lia. lia.
Qed.

Lemma shr_1_m (mrs : shr_record) :
  0 <= shr_m mrs -> shr_m (shr_1 mrs) = shr_m mrs / 2.
Proof.
  destruct mrs as [m r s]. simpl. intros Hm.
  rewrite <- Z.div2_div.
  destruct m as [|[p|p|]|p]; try reflexivity. lia.
Qed.

Lemma shr_1_nonneg (mrs : shr_record) : 0 <= shr_m mrs -> 0 <= shr_m (shr_1 mrs).
Proof. intros H. rewrite shr_1_m by exact H. apply Z.div_pos; lia. Qed.

Lemma iter_shr_m (p : positive) (mrs : shr_record) :
  0 <= shr_m mrs ->
  shr_m (iter_pos shr_1 p mrs) = shr_m mrs / 2 ^ Zpos p.
Proof.
  revert mrs. induction p as [p IH|p IH|]; intros mrs Hm; cbn [iter_pos].
  - assert (H1 := shr_1_nonneg mrs Hm).
    assert (H2 : 0 <= shr_m (iter_pos shr_1 p (shr_1 mrs))).
    { rewrite IH by exact H1. apply Z.div_pos; lia. }
    rewrite IH by exact H2. rewrite IH by exact H1. rewrite shr_1_m by exact Hm.
    rewrite !Z.div_div by lia. f_equal.
    change (Zpos p~1) with (2 * Zpos p + 1).
    replace (2 * Zpos p + 1) with (1 + Zpos p + Zpos p) by lia.
    rewrite !Z.pow_add_r by lia. rewrite Z.pow_1_r. ring.
  - assert (H2 : 0 <= shr_m (iter_pos shr_1 p mrs)).
    { rewrite IH by exact Hm. apply Z.div_pos; lia. }
    rewrite IH by exact H2. rewrite IH by exact Hm.
    rewrite Z.div_div by lia. f_equal.
    change (Zpos p~0) with (2 * Zpos p). replace (2 * Zpos p) with (Zpos p + Zpos p) by lia.
    rewrite Z.pow_add_r by lia. reflexivity.
  - rewrite shr_1_m by exact Hm. reflexivity.
Qed.

(** Shifting a positive mantissa to its format exponent keeps it
    positive, when the exponent is not below [emin]. *)
Lemma shr_fexp_positive (m : positive) (e : Z) (l : location) :
  SpecFloat.emin prec emax <= e ->
  0 < shr_m (fst (shr_fexp prec emax (Zpos m) e l)) /\
  SpecFloat.emin prec emax <= snd (shr_fexp prec emax (Zpos m) e l).
Proof.
  intros He. unfold shr_fexp, shr. cbn [Zdigits2].
  assert (Hm : shr_m (shr_record_of_loc (Zpos m) l) = Zpos m).
  { destruct l as [|[]]; reflexivity. }
  destruct (fexp prec emax (Zpos (digits2_pos m) + e) - e) as [|n|n] eqn:En;
    cbn [fst snd]; try (rewrite Hm; split; lia).
  rewrite iter_shr_m by (rewrite Hm; lia). rewrite Hm.
  unfold fexp, SpecFloat.emin, emax in *.
  assert (Hn : Zpos n = Zpos (digits2_pos m) - prec) by (unfold prec in *; lia).
  split; [|lia].
  apply Z.div_str_pos. split; [apply Z.pow_pos_nonneg; lia|].
  eapply Z.le_trans; [|apply digits2_lower].
  apply Z.pow_le_mono_r; [lia|]. rewrite Hn. unfold prec. lia.
Qed.

Lemma round_nearest_even_pos (m : Z) (l : location) :
  0 < m -> 0 < round_nearest_even m l.
Proof.
  intros H. destruct l as [|[]]; cbn [round_nearest_even]; try lia.
  destruct (Z.even m); lia.
Qed.

Lemma binary_round_aux_nonzero (sx : bool) (m : positive) (e : Z) (l : location) :
  SpecFloat.emin prec emax <= e ->
  sf_nonzero (binary_round_aux prec emax sx (Zpos m) e l).
Proof.
  intros He. unfold binary_round_aux.
  destruct (shr_fexp_positive m e l He) as [H1 H2].
  destruct (shr_fexp prec emax (Zpos m) e l) as [mrs' e']. cbn [fst snd] in *.
  pose proof (round_nearest_even_pos _ (loc_of_shr_record mrs') H1) as Hr.
  destruct (round_nearest_even (shr_m mrs') (loc_of_shr_record mrs')) as [|r|r];
    try lia.
  destruct (shr_fexp_positive r e' loc_Exact H2) as [H3 _].
  destruct (shr_fexp prec emax (Zpos r) e' loc_Exact) as [mrs'' e''].
  cbn [fst] in H3.
  destruct (shr_m mrs'') as [|q|q]; try lia.
  destruct (e'' <=? emax - prec); exact I.
Qed.

Lemma binary_round_nonzero (sx : bool) (m : positive) (e : Z) :
  SpecFloat.emin prec emax <= e -> sf_nonzero (binary_round prec emax sx m e).
Proof.
  intros He. unfold binary_round.
  destruct (shl_align m e (fexp prec emax (Zpos (digits2_pos m) + e)))
    as [mz ez] eqn:E.
  apply binary_round_aux_nonzero.
  unfold shl_align in E.
  destruct (fexp prec emax (Zpos (digits2_pos m) + e) - e) eqn:D;
    injection E as <- <-; try exact He.
  unfold fexp. lia.
Qed.

Lemma iter_xO (m d : positive) : Zpos (Pos.iter xO m d) = Zpos m * 2 ^ Zpos d.
Proof.
  induction d as [|d IH] using Pos.peano_ind.
  - cbn. lia.
  - rewrite Pos.iter_succ. change (Zpos (Pos.iter xO m d)~0) with (2 * Zpos (Pos.iter xO m d)).
    rewrite IH, Pos2Z.inj_succ, Z.pow_succ_r by lia. ring.
Qed.

Lemma digits2_upper (m : positive) : Zpos m < 2 ^ Zpos (digits2_pos m).
Proof.
  rewrite digits2_size.
  pose proof (Pos2Z.pos_lt_pos _ _ (Pos.size_gt m)) as H.
  rewrite Pos2Z.inj_pow in H. exact H.
Qed.

Lemma binary_normalize_nonzero (z e : Z) :
  0 < z -> SpecFloat.emin prec emax <= e ->
  sf_nonzero (binary_normalize prec emax z e false).
Proof.
  intros Hz He. destruct z as [|p|p]; try lia.
  apply binary_round_nonzero, He.
Qed.

Lemma shl_align_same (m : positive) (e : Z) : shl_align m e e = (m, e).
Proof. unfold shl_align. now rewrite Z.sub_diag. Qed.

Lemma shl_align_down (m : positive) (e e' : Z) :
  e' < e -> Zpos (fst (shl_align m e e')) = Zpos m * 2 ^ (e - e').
Proof.
  intros H. unfold shl_align.
  destruct (e' - e) as [|d|d] eqn:D; try lia.
  cbn [fst]. rewrite iter_xO. f_equal. f_equal. lia.
Qed.

(** In binary64, [1. - w] is not zero when [0 < w < 1]. *)
Lemma one_minus_nonzero (w : PrimFloat.float) :
  PrimFloat.ltb PrimFloat.zero w = true ->
  PrimFloat.ltb w PrimFloat.one = true ->
  PrimFloat.eqb (PrimFloat.sub PrimFloat.one w) PrimFloat.zero = false.
Proof.
  rewrite !ltb_spec, eqb_spec, sub_spec.
  pose proof (Prim2SF_valid w) as Hv.
  change (Prim2SF PrimFloat.zero) with (S754_zero false).
  change (Prim2SF PrimFloat.one) with (S754_finite false 4503599627370496 (-52)).
  destruct (Prim2SF w) as [s| s| |s m e]; try discriminate.
  - destruct s; discriminate.
  - destruct s; [discriminate|]. intros _.
    unfold SFltb, SFcompare. intros Hlt.
    cbn [valid_binary] in Hv. unfold bounded, canonical_mantissa in Hv.
    apply andb_prop in Hv as [Hc _]. apply Z.eqb_eq in Hc.
    unfold fexp, SpecFloat.emin, emax, prec in Hc.
    assert (Hup := digits2_upper m).
    assert (Hd : Zpos (digits2_pos m) <= 53) by lia.
    assert (Hm : Zpos m < 2 ^ 53).
    { eapply Z.lt_le_trans; [exact Hup|]. apply Z.pow_le_mono_r; lia. }
    assert (Hnz : forall x, sf_nonzero x -> SFeqb x (S754_zero false) = false).
    { intros [sx|sx| |sx mx ex]; cbn; try tauto; destruct sx; reflexivity. }
    apply Hnz. unfold SF64sub, SFsub. cbn [cond_Zopp].
    destruct (e ?= -52) eqn:Ce; try discriminate.
    + apply Z.compare_eq in Ce. subst e.
      rewrite Z.min_id, !shl_align_same. cbn [fst].
      apply binary_normalize_nonzero; [|unfold SpecFloat.emin, emax, prec; lia].
      rewrite Pos.compare_cont_spec in Hlt.
      destruct (Pos.compare m 4503599627370496) eqn:Cm; try discriminate.
      apply Pos.compare_lt_iff, Pos2Z.pos_lt_pos in Cm. lia.
    + change (e < -52) in Ce.
      rewrite (Z.min_r (-52) e) by lia. rewrite shl_align_same. cbn [fst].
      rewrite shl_align_down by lia.
      apply binary_normalize_nonzero; [|unfold SpecFloat.emin, emax, prec; lia].
      assert (2 ^ 1 <= 2 ^ (-52 - e)) by (apply Z.pow_le_mono_r; lia).
      change (2 ^ 53) with (4503599627370496 * 2 ^ 1) in Hm. nia.
Qed.

Lemma normalized_weight_returns (w : PrimFloat.float) :
  PrimFloat.ltb PrimFloat.zero w = true ->
  PrimFloat.ltb w PrimFloat.one = true ->
  normalized_weight w
  = Ok (PrimFloat.div w (PrimFloat.sub PrimFloat.one w)).
Proof.
  intros H0 H1. unfold normalized_weight, py_div.
  now rewrite (one_minus_nonzero w H0 H1).
Qed.

Lemma normalized_weight_raises :
  normalized_weight PrimFloat.one = Raise ZeroDivisionError.
Proof. reflexivity. Qed.

End Binary64.

(** C6: [create_models] does not check [recon_vs_gan_weight].  For a
    weight in (0,1) the divisor [1 - w] is not zero, the division succeeds
    and [normalized_weight] is [w / (1 - w)]; with a weight equal to 1 the
    call raises [ZeroDivisionError]; any other weight, in (0,1) or not, is
    accepted.  The same holds of the division at binary64 precision. *)
Theorem normalization_is_unguarded (w wd bm be : Q) :
  (0 < w < 1 ->
     ~ 1 - w == 0 /\
     exists g h,
       create_models_body w wd bm be empty_heap = Ok (g, h) /\
       normalized_weight g = w / (1 - w) /\
       run (create_models w wd bm be) = Ok (returned g)) /\
  (w == 1 -> run (create_models w wd bm be) = Raise ZeroDivisionError) /\
  (~ w == 1 -> exists ms, run (create_models w wd bm be) = Ok ms) /\
  (forall f : PrimFloat.float,
     PrimFloat.ltb PrimFloat.zero f = true ->
     PrimFloat.ltb f PrimFloat.one = true ->
     PrimFloat.eqb (PrimFloat.sub PrimFloat.one f) PrimFloat.zero = false /\
     Binary64.normalized_weight f
     = Ok (PrimFloat.div f (PrimFloat.sub PrimFloat.one f))) /\
  Binary64.normalized_weight PrimFloat.one = Raise ZeroDivisionError.
Proof.
  split; [|split; [|split; [|split]]].
  - intros Hw. split; [Lqa.lra|].
    apply unit_interval_divisor in Hw.
    cbv -[Qeq_bool Qminus Qdiv Qplus Qmult Qopp Qinv].
    rewrite Hw. eexists. eexists. repeat split.
  - intros Hw. apply divisor_zero_iff in Hw.
    cbv -[Qeq_bool Qminus Qdiv Qplus Qmult Qopp Qinv].
    rewrite Hw. reflexivity.
  - intros Hw. apply divisor_nonzero in Hw.
    cbv -[Qeq_bool Qminus Qdiv Qplus Qmult Qopp Qinv].
    rewrite Hw. eexists. reflexivity.
  - intros f H0 H1. split.
    + exact (Binary64.one_minus_nonzero f H0 H1).
    + exact (Binary64.normalized_weight_returns f H0 H1).
  - exact Binary64.normalized_weight_raises.
Qed.

Lemma normalization_is_unguarded_witness :
  run (create_models (1 # 2) default_wdecay default_bn_mom default_bn_eps)
    <> Raise ZeroDivisionError /\
  run (create_models 1 default_wdecay default_bn_mom default_bn_eps)
    = Raise ZeroDivisionError /\
  (exists ms, run (create_models 2 default_wdecay default_bn_mom default_bn_eps) = Ok ms) /\
  Binary64.normalized_weight Binary64.default_weight
  = Ok (PrimFloat.div Binary64.default_weight
          (PrimFloat.sub PrimFloat.one Binary64.default_weight)).
Proof.
  destruct (normalization_is_unguarded (1 # 2) default_wdecay default_bn_mom
              default_bn_eps) as (H1 & _ & _ & H4 & _).
  destruct (normalization_is_unguarded 1 default_wdecay default_bn_mom
              default_bn_eps) as (_ & H2 & _).
  destruct (normalization_is_unguarded 2 default_wdecay default_bn_mom
              default_bn_eps) as (_ & _ & H3 & _).
  split; [|split; [|split]].
  - destruct H1 as (_ & g & h & _ & _ & E); [split; reflexivity|].
    rewrite E. discriminate.
  - apply H2. reflexivity.
  - apply H3. discriminate.
  - destruct (H4 Binary64.default_weight eq_refl eq_refl) as [_ E]. exact E.
Defined.

(** ** The loss bound to [decoder_train] *)

Lemma Q2R_normalized (w : Q) :
  ~ 1 - w == 0 -> Q2R (w / (1 - w)) = (Q2R w / (1 - Q2R w))%R.
Proof.
  intros H. rewrite Q2R_div by exact H.
  rewrite Q2R_minus, Q2R_one. reflexivity.
Qed.

Section ScaledLoss.

Variable params : Type.
Variable layer_fwd : layer_config -> params -> ndarray -> ndarray.
Variable nll : ndarray -> ndarray -> R.

(** A Python number times a scalar loss. *)
Lemma eval_scaled_loss (W : weights params) (feed : feed_dict) (eps : ndarray)
  (c : Q) (t : tensor) (L : R) :
  eval layer_fwd nll W feed eps t = Some (scalar L) ->
  eval layer_fwd nll W feed eps (Mul (Const c) t)
  = Some (scalar (Q2R c * L)).
Proof. intros H. cbn [eval]. rewrite H. reflexivity. Qed.

(** C5: for every [recon_vs_gan_weight] in (0,1), [decoder_train] has a
    single bound loss, the feature-similarity loss (the Gaussian negative
    log-likelihood of the discriminator features of the image and of its
    reconstruction) multiplied by [w / (1 - w)]: whenever the
    feature-similarity loss evaluates to [L], the bound loss evaluates to
    [(w / (1 - w)) * L]. *)
Theorem decoder_train_loss_is_scaled_similarity (w wd bm be : Q) :
  0 < w < 1 ->
  exists g h fx ft,
    create_models_body w wd bm be empty_heap = Ok (g, h) /\
    nth_error (dis_x g) 1 = Some fx /\
    nth_error (dis_x_tilde g) 1 = Some ft /\
    dis_nll_loss g = GaussianNLL fx ft /\
    losses (decoder_train g) = [Mul (Const (w / (1 - w))) (dis_nll_loss g)] /\
    forall (W : weights params) (feed : feed_dict) (eps : ndarray) (L : R),
      eval layer_fwd nll W feed eps (dis_nll_loss g) = Some (scalar L) ->
      eval_all layer_fwd nll W feed eps (losses (decoder_train g))
      = Some [scalar (Q2R w / (1 - Q2R w) * L)].
Proof.
  intros Hw.
  assert (Hnz : ~ 1 - w == 0) by Lqa.lra.
  destruct (body_succeeds w wd bm be (unit_interval_divisor w Hw)) as (g & h & Hg).
  exists g, h. pose proof Hg as Hrun. run_body Hg.
  eexists. eexists. split; [exact Hrun|].
  cbn [dis_x dis_x_tilde dis_nll_loss decoder_train losses].
  split; [reflexivity|]. split; [reflexivity|]. split; [reflexivity|].
  split; [reflexivity|].
  intros W feed eps L HL. cbn [eval_all].
  rewrite (eval_scaled_loss W feed eps _ _ _ HL). cbn [bind_opt option_map].
  rewrite (Q2R_normalized w Hnz). reflexivity.
Qed.

End ScaledLoss.

(** ** Kernels of the encoder *)

(** Initializer and regularizer of the kernel of a layer that has one. *)
Definition kernel_settings (c : layer_config)
  : option (initializer * option regularizer) :=
  match c with
  | Conv2D _ _ _ _ _ r i => Some (i, r)
  | Conv2DTranspose _ _ _ _ _ r i => Some (i, r)
  | Dense _ _ r i => Some (i, r)
  | _ => None
  end.

Definition has_kernel (l : layer) : bool :=
  match kernel_settings (layer_cfg l) with Some _ => true | None => false end.

(** The convolution and dense layers on the way to a tensor, last first. *)
Definition kernel_layers (t : tensor) : list layer :=
  filter has_kernel (tensor_layers t).

Definition named_cfg (l : layer) : option string * layer_config :=
  (layer_name l, layer_cfg l).

(** The trunk shared by the two heads of the encoder. *)
Definition encoder_trunk_kernels (wd : Q) : list (option string * layer_config) :=
  [ (None, Dense 1024 Linear (Some (l2 wd)) HeUniform);
    (None, Conv2D 256 5 2 PadSame Linear (Some (l2 wd)) HeUniform);
    (None, Conv2D 128 5 2 PadSame Linear (Some (l2 wd)) HeUniform);
    (None, Conv2D 64 5 2 PadSame Linear (Some (l2 wd)) HeUniform) ].

(** C7 (as amended): in the encoder every convolution and dense kernel
    uses He-uniform initialization; the three convolutions and the
    1024-unit dense layer carry L2 weight decay with coefficient
    [wdecay]; the two linear heads [z_mean] and [z_log_var] are built
    without a kernel regularizer. *)
Theorem encoder_kernel_settings (w wd bm be : Q) (g : locals) (h : heap) :
  create_models_body w wd bm be empty_heap = Ok (g, h) ->
  exists zm zlv,
    outputs (encoder g) = [zm; zlv] /\
    map named_cfg (kernel_layers zm)
      = (Some "z_mean"%string, Dense 128 Linear None HeUniform)
        :: encoder_trunk_kernels wd /\
    map named_cfg (kernel_layers zlv)
      = (Some "z_log_var"%string, Dense 128 Linear None HeUniform)
        :: encoder_trunk_kernels wd /\
    Forall (fun l =>
              exists r, kernel_settings (layer_cfg l) = Some (HeUniform, r) /\
                (r = Some (l2 wd) \/
                 r = None /\ (layer_name l = Some "z_mean"%string \/
                              layer_name l = Some "z_log_var"%string)))
           (kernel_layers zm ++ kernel_layers zlv).
Proof.
  intros Hg. run_body Hg. cbn [encoder outputs].
  eexists. eexists. split; [reflexivity|].
  split; [reflexivity|]. split; [reflexivity|].
  cbv [kernel_layers tensor_layers filter has_kernel kernel_settings layer_cfg app].
  repeat constructor; eexists; (split; [reflexivity|]); cbn [layer_name]; auto.
Qed.

Lemma encoder_kernel_settings_witness :
  exists g h zm zlv,
    create_models_body default_recon_vs_gan_weight default_wdecay
      default_bn_mom default_bn_eps empty_heap = Ok (g, h) /\
    outputs (encoder g) = [zm; zlv] /\
    map named_cfg (kernel_layers zm)
      = (Some "z_mean"%string, Dense 128 Linear None HeUniform)
        :: encoder_trunk_kernels default_wdecay.
Proof.
  destruct (body_succeeds default_recon_vs_gan_weight default_wdecay
              default_bn_mom default_bn_eps eq_refl) as (g & h & Hg).
  destruct (encoder_kernel_settings _ _ _ _ _ _ Hg) as (zm & zlv & H1 & H2 & _).
  exists g, h, zm, zlv. repeat split; assumption.
Defined.

(** C7 (as stated) fails: with the default arguments the [z_mean] head of
    the encoder is a dense layer whose kernel has no regularizer, hence no
    L2 weight decay with coefficient [wdecay]. *)
Lemma encoder_head_without_weight_decay :
  exists g h l,
    create_models_body default_recon_vs_gan_weight default_wdecay
      default_bn_mom default_bn_eps empty_heap = Ok (g, h) /\
    In l (flat_map tensor_layers (outputs (encoder g))) /\
    layer_name l = Some "z_mean"%string /\
    layer_cfg l = Dense 128 Linear None HeUniform /\
    kernel_settings (layer_cfg l) <> Some (HeUniform, Some (l2 default_wdecay)).
Proof.
  eexists. eexists. eexists.
  split; [vm_compute; reflexivity|].
  split; [cbn; left; reflexivity|].
  split; [reflexivity|]. split; [reflexivity|]. discriminate.
Qed.

(** ** Batch-normalization layers *)

Definition is_batchnorm (l : layer) : bool :=
  match layer_cfg l with BatchNormalization _ _ => true | _ => false end.

Definition is_dense (l : layer) : bool :=
  match layer_cfg l with Dense _ _ _ _ => true | _ => false end.

(** The layers applied directly to the output of a dense layer, on the
    way to a tensor. *)
Fixpoint fed_by_dense (t : tensor) : list layer :=
  match t with
  | Apply l a =>
      match a with
      | Apply l' _ => if is_dense l' then [l] else []
      | _ => []
      end ++ fed_by_dense a
  | LambdaOut _ b => fed_by_dense b
  | _ => []
  end.

Definition id_cfg (l : layer) : nat * layer_config := (layer_id l, layer_cfg l).

(** The batch normalizations that receive [bn_mom] and [bn_eps], by
    object identity: those of the eight [conv_block] calls that are used
    (decoder 7, 10, 13; encoder 19, 22, 25; discriminator 37, 40), the one
    of the [conv_block(None, 256)] call of which only the convolution is
    used (43), and the one after the discriminator's feature tensor (44). *)
Definition configured_batchnorms : list nat :=
  [7; 10; 13; 19; 22; 25; 37; 40; 43; 44]%nat.

(** C9: [bn_mom] and [bn_eps] reach only the batch normalizations built
    by [conv_block] and the one applied to the discriminator's feature
    tensor.  The three batch normalizations that follow a dense layer
    (decoder 16384 units, encoder 1024 units, discriminator 512 units) are
    built without arguments, and every layer object other than the
    configured batch normalizations is the same whatever [bn_mom] and
    [bn_eps] are. *)
Theorem batchnorm_arguments_frame (w wd bm be : Q) (g : locals) (h : heap) :
  create_models_body w wd bm be empty_heap = Ok (g, h) ->
  map id_cfg (filter is_batchnorm (created h))
    = [ (2, BatchNormalization None None);
        (7, BatchNormalization (Some bm) (Some be));
        (10, BatchNormalization (Some bm) (Some be));
        (13, BatchNormalization (Some bm) (Some be));
        (19, BatchNormalization (Some bm) (Some be));
        (22, BatchNormalization (Some bm) (Some be));
        (25, BatchNormalization (Some bm) (Some be));
        (28, BatchNormalization None None);
        (37, BatchNormalization (Some bm) (Some be));
        (40, BatchNormalization (Some bm) (Some be));
        (43, BatchNormalization (Some bm) (Some be));
        (44, BatchNormalization (Some bm) (Some be));
        (48, BatchNormalization None None) ]%nat /\
  map id_cfg (flat_map fed_by_dense (outputs (decoder g)))
    = [(2%nat, BatchNormalization None None)] /\
  map id_cfg (fed_by_dense (nth 0 (outputs (encoder g)) (Const 0)))
    = [(28%nat, BatchNormalization None None)] /\
  map id_cfg (fed_by_dense (nth 0 (outputs (discriminator g)) (Const 0)))
    = [(48%nat, BatchNormalization None None)] /\
  forall (bm' be' : Q) (g' : locals) (h' : heap),
    create_models_body w wd bm' be' empty_heap = Ok (g', h') ->
    Forall2 (fun l l' =>
               l = l' \/
               (In (layer_id l) configured_batchnorms /\
                layer_id l' = layer_id l /\
                layer_cfg l = BatchNormalization (Some bm) (Some be) /\
                layer_cfg l' = BatchNormalization (Some bm') (Some be')))
            (created h) (created h').
Proof.
  intros Hg. run_body Hg. cbn [decoder encoder discriminator outputs nth].
  split; [reflexivity|]. split; [reflexivity|]. split; [reflexivity|].
  split; [reflexivity|].
  intros bm' be' g' h' Hg'. run_body Hg'.
  repeat (apply Forall2_cons;
          [first [left; reflexivity
                 |right; cbn [layer_id layer_cfg configured_batchnorms In];
                  repeat split; auto 12]|]).
  apply Forall2_nil.
Qed.

Lemma batchnorm_arguments_frame_witness :
  exists g h,
    create_models_body default_recon_vs_gan_weight default_wdecay
      default_bn_mom default_bn_eps empty_heap = Ok (g, h) /\
    map id_cfg (flat_map fed_by_dense (outputs (decoder g)))
      = [(2%nat, BatchNormalization None None)].
Proof.
  destruct (body_succeeds default_recon_vs_gan_weight default_wdecay
              default_bn_mom default_bn_eps eq_refl) as (g & h & Hg).
  destruct (batchnorm_arguments_frame _ _ _ _ _ _ Hg) as (_ & H & _).
  exists g, h. split; assumption.
Defined.

(** ** The discriminator's output pair and where it is used *)

(** A tensor and every tensor it is computed from. *)
Fixpoint subtensors (t : tensor) : list tensor :=
  t :: match t with
       | InputTensor _ | Const _ => []
       | Apply _ a | LambdaOut _ a => subtensors a
       | Add a b | Sub a b | Mul a b | GaussianNLL a b =>
           subtensors a ++ subtensors b
       | Exp a | Square a | SumLast a | Mean a => subtensors a
       | RandomNormal b _ => subtensors b
       end.

(** The layers from the feature tensor to the realism score. *)
Definition score_head (wd bm be : Q) : list layer_config :=
  [ BatchNormalization (Some bm) (Some be);
    LeakyReLU leaky_relu_alpha;
    Flatten;
    Dense 512 Linear (Some (l2 wd)) HeUniform;
    BatchNormalization None None;
    LeakyReLU leaky_relu_alpha;
    Dense 1 Sigmoid (Some (l2 wd)) HeUniform ].

(** C8 (as amended): the discriminator returns a pair: a sigmoid score
    and a feature tensor of shape 8x8x256, for every image it is called
    on.  The feature tensor is the output of the last 256-channel
    convolution, taken before the batch normalization and LeakyReLU that
    follow it, and the score is computed from that feature tensor.  In the
    composite graphs the feature tensors are the two arguments of the
    feature-similarity loss, and the feature tensor of the reconstruction
    is also the output of [encoder_train]; every output of
    [decoder_train], [discriminator_train] and [vaegan] is a score, none
    is a feature tensor. *)
Theorem discriminator_pair_and_uses (w wd bm be : Q) (g : locals) (h : heap) :
  create_models_body w wd bm be empty_heap = Ok (g, h) ->
  (exists d d_feat conv below post,
     outputs (discriminator g) = [d; d_feat] /\
     int_shape d = score_sig /\
     int_shape d_feat = feature_sig /\
     d_feat = Apply conv below /\
     layer_cfg conv = Conv2D 256 5 2 PadSame Linear (Some (l2 wd)) HeUniform /\
     d = fold_left (fun x l => Apply l x) post d_feat /\
     map layer_cfg post = score_head wd bm be) /\
  (forall t, int_shape t = image_sig ->
     map int_shape (call (discriminator g) [t]) = [score_sig; feature_sig]) /\
  (exists s_x f_x s_t f_t s_p f_p,
     dis_x g = [s_x; f_x] /\
     dis_x_tilde g = [s_t; f_t] /\
     dis_x_p g = [s_p; f_p] /\
     dis_nll_loss g = GaussianNLL f_x f_t /\
     outputs (encoder_train g) = [f_t] /\
     losses (encoder_train g) = [kl_loss g; dis_nll_loss g] /\
     outputs (decoder_train g) = [s_t; s_p] /\
     losses (decoder_train g)
       = [Mul (Const (normalized_weight g)) (dis_nll_loss g)] /\
     outputs (discriminator_train g) = [s_x; s_t; s_p] /\
     losses (discriminator_train g) = [] /\
     outputs (vaegan g) = [s_t] /\
     losses (vaegan g) = [] /\
     Forall (fun s => ~ In s [f_x; f_t; f_p]) [s_x; s_t; s_p]).
Proof.
  intros Hg. run_body Hg.
  split; [|split].
  - do 4 eexists. eexists [_; _; _; _; _; _; _].
    cbn [discriminator outputs].
    split; [reflexivity|]. split; [reflexivity|]. split; [reflexivity|].
    split; [reflexivity|]. split; [reflexivity|]. split; reflexivity.
  - intros t Ht.
    cbn [discriminator call inputs outputs map subst tensor_for combine
         layer_id Nat.eqb int_shape].
    rewrite Ht. split.
  - do 6 eexists.
    cbn [dis_x dis_x_tilde dis_x_p dis_nll_loss encoder_train decoder_train
         discriminator_train vaegan outputs losses kl_loss normalized_weight].
    repeat (split; [reflexivity|]).
    repeat constructor; cbn [In]; intros H;
      repeat (destruct H as [H|H]; [discriminate H|]); exact H.
Qed.

Lemma discriminator_pair_and_uses_witness :
  exists g h,
    create_models_body default_recon_vs_gan_weight default_wdecay
      default_bn_mom default_bn_eps empty_heap = Ok (g, h) /\
    forall t, int_shape t = image_sig ->
      map int_shape (call (discriminator g) [t]) = [score_sig; feature_sig].
Proof.
  destruct (body_succeeds default_recon_vs_gan_weight default_wdecay
              default_bn_mom default_bn_eps eq_refl) as (g & h & Hg).
  exists g, h. split; [exact Hg|].
  exact (proj1 (proj2 (discriminator_pair_and_uses _ _ _ _ _ _ Hg))).
Defined.

(** C8 (as stated) fails on its last part: with the default arguments
    the feature tensor of the discriminator call on the reconstruction is
    itself the output of the training graph [encoder_train], not only an
    argument of the feature-similarity loss, and the realism score that
    [decoder_train], [discriminator_train] and [vaegan] output is
    computed from that feature tensor. *)
Lemma feature_tensor_has_other_consumers :
  exists g h s_t f_t,
    create_models_body default_recon_vs_gan_weight default_wdecay
      default_bn_mom default_bn_eps empty_heap = Ok (g, h) /\
    dis_x_tilde g = [s_t; f_t] /\
    outputs (encoder_train g) = [f_t] /\
    In s_t (outputs (decoder_train g)) /\
    In s_t (outputs (discriminator_train g)) /\
    outputs (vaegan g) = [s_t] /\
    In f_t (subtensors s_t) /\
    f_t <> s_t.
Proof.
  do 4 eexists.
  split; [vm_compute; reflexivity|].
  cbn [dis_x_tilde encoder_train decoder_train discriminator_train vaegan outputs].
  split; [reflexivity|]. split; [reflexivity|].
  split; [left; reflexivity|]. split; [right; left; reflexivity|].
  split; [reflexivity|].
  split; [cbn [subtensors In]; do 7 right; left; reflexivity|discriminate].
Qed.

(** ** The latent sampler *)

Lemma sampling_returns (zm zlv : tensor) (b : option N) (d : N) (h : heap) :
  int_shape zm = Some [b; Some d] ->
  sampling [zm; zlv] h
  = Ok (Add zm (Mul (Exp (Mul (Const 0.5) zlv)) (RandomNormal zm d)), h).
Proof.
  intros Hs. unfold sampling, bind, py_unpack2, ret. rewrite Hs. reflexivity.
Qed.

Lemma reparameterize_zip (m v e : list R) :
  zip_with Rplus m (zip_with Rmult (map exp (map (Rmult (Q2R 0.5)) v)) e)
  = zip3 reparameterize m v e.
Proof.
  revert v e; induction m as [|a m IH]; intros [|b v] [|c e];
    cbn [zip_with zip3 map]; try reflexivity.
  rewrite IH. reflexivity.
Qed.

Lemma is_draw_inv (n k : nat) (eps : ndarray) :
  is_draw n k eps = true ->
  eps = mkArr [n; k] (nd_data eps) /\ length (nd_data eps) = (n * k)%nat.
Proof.
  unfold is_draw. intros H. apply andb_prop in H as [Hs Hl].
  apply dims_eqb_eq in Hs. apply Nat.eqb_eq in Hl.
  destruct eps as [s e]; simpl in *. subst s. auto.
Qed.

Section Sampler.

Variable params : Type.
Variable layer_fwd : layer_config -> params -> ndarray -> ndarray.
Variable nll : ndarray -> ndarray -> R.

(** The value of the expression [sampling] builds. *)
Lemma eval_sampling (W : weights params) (feed : feed_dict) (eps : ndarray)
  (zm zlv : tensor) (d : N) (n : nat) (m v : list R) :
  eval layer_fwd nll W feed eps zm = Some (mkArr [n; N.to_nat d] m) ->
  eval layer_fwd nll W feed eps zlv = Some (mkArr [n; N.to_nat d] v) ->
  length m = (n * N.to_nat d)%nat ->
  length v = (n * N.to_nat d)%nat ->
  is_draw n (N.to_nat d) eps = true ->
  eval layer_fwd nll W feed eps
    (Add zm (Mul (Exp (Mul (Const 0.5) zlv)) (RandomNormal zm d)))
  = Some (mkArr [n; N.to_nat d] (zip3 reparameterize m v (nd_data eps))).
Proof.
  intros Hm Hv Lm Lv Hd.
  cbn [eval]. rewrite Hm, Hv. cbn [bind_opt option_map nd_shape].
  rewrite Hd. apply is_draw_inv in Hd as [He Le].
  rewrite nd_map2_scalar_l. cbn [bind_opt option_map nd_shape nd_data].
  unfold nd_map. cbn [nd_shape nd_data].
  rewrite He at 1. rewrite nd_map2_same by (rewrite !length_map; congruence).
  cbn [bind_opt]. rewrite nd_map2_same.
  - rewrite reparameterize_zip. reflexivity.
  - rewrite zip_with_length; rewrite !length_map; congruence.
Qed.

(** C3: the sampler layer, called on a mean and a log-variance of latent
    dimension [d] (128 in [create_models]), returns the tensor whose value,
    for every batch of means [m] and log-variances [v] and every noise draw
    [eps] of the same shape, is entry by entry
    [m + exp(0.5 * v) * eps]; the latent [z] of [create_models] is this
    sampler applied to the two outputs of the encoder. *)
Theorem sampler_is_reparameterization :
  (forall (zm zlv : tensor) (b : option N) (d : N) (l : layer) (h : heap)
          (W : weights params) (feed : feed_dict) (eps : ndarray)
          (n : nat) (m v : list R),
      int_shape zm = Some [b; Some d] ->
      eval layer_fwd nll W feed eps zm = Some (mkArr [n; N.to_nat d] m) ->
      eval layer_fwd nll W feed eps zlv = Some (mkArr [n; N.to_nat d] v) ->
      length m = (n * N.to_nat d)%nat ->
      length v = (n * N.to_nat d)%nat ->
      is_draw n (N.to_nat d) eps = true ->
      exists z,
        call_lambda l sampling [zm; zlv] h = Ok (z, h) /\
        eval layer_fwd nll W feed eps z
        = Some (mkArr [n; N.to_nat d] (zip3 reparameterize m v (nd_data eps)))) /\
  (forall (w wd bm be : Q) (g : locals) (h : heap)
          (W : weights params) (feed : feed_dict) (eps : ndarray)
          (n : nat) (m v : list R),
      create_models_body w wd bm be empty_heap = Ok (g, h) ->
      eval layer_fwd nll W feed eps (z_mean g) = Some (mkArr [n; 128%nat] m) ->
      eval layer_fwd nll W feed eps (z_log_var g) = Some (mkArr [n; 128%nat] v) ->
      length m = (n * 128)%nat ->
      length v = (n * 128)%nat ->
      is_draw n 128 eps = true ->
      call (encoder g) [x g] = [z_mean g; z_log_var g] /\
      int_shape (z_mean g) = latent_sig /\
      int_shape (z_log_var g) = latent_sig /\
      eval layer_fwd nll W feed eps (z g)
      = Some (mkArr [n; 128%nat] (zip3 reparameterize m v (nd_data eps)))).
Proof.
  split.
  - intros zm zlv b d l h W feed eps n m v Hs Hm Hv Lm Lv Hd.
    eexists. split.
    + unfold call_lambda, bind. rewrite (sampling_returns zm zlv b d h Hs).
      reflexivity.
    + cbn [eval]. apply eval_sampling; assumption.
  - intros w wd bm be g h W feed eps n m v Hg.
    run_body Hg. cbn [z_mean z_log_var z encoder x].
    intros Hm Hv Lm Lv Hd.
    split; [reflexivity|]. split; [reflexivity|]. split; [reflexivity|].
    cbn [eval].
    exact (eval_sampling W feed eps _ _ 128%N n m v Hm Hv Lm Lv Hd).
Qed.

End Sampler.

(** ** The KL divergence loss *)

Lemma concat_map_length (d : nat) (rows : posterior_batch) (f : R * R -> R) :
  Forall (fun row => length row = d) rows ->
  Forall (fun r => length r = d) (map (map f) rows).
Proof.
  induction 1 as [|row rows Hr _ IH]; simpl; constructor; auto.
  now rewrite length_map.
Qed.

Lemma chunks_concat_map (d : nat) (rows : posterior_batch) (f : R * R -> R) :
  Forall (fun row => length row = d) rows ->
  chunks (length rows) d (concat (map (map f) rows)) = map (map f) rows.
Proof.
  intros H. rewrite <- (length_map (map f) rows).
  apply chunks_concat, concat_map_length, H.
Qed.

Lemma kl_sample_sum (row : list (R * R)) :
  (Q2R (-0.5) *
   Rsum (map (fun p => Q2R 1 + snd p - fst p * fst p - exp (snd p)) row))%R
  = kl_sample row.
Proof.
  unfold kl_sample. f_equal. f_equal.
  apply map_ext. intros p. rewrite Q2R_one. reflexivity.
Qed.

Lemma kl_spec_zero (rows : posterior_batch) :
  Forall (Forall (fun p => p = (0, 0)%R)) rows -> kl_spec rows = 0%R.
Proof.
  intros H. unfold kl_spec.
  rewrite Rsum_zero; [unfold Rdiv; apply Rmult_0_l|].
  apply Forall_map. eapply Forall_impl; [|exact H].
  intros row Hrow. unfold kl_sample.
  rewrite Rsum_zero; [apply Rmult_0_r|].
  apply Forall_map. eapply Forall_impl; [|exact Hrow].
  intros p ->. simpl. rewrite exp_0. lra.
Qed.

Section KL.

Variable params : Type.
Variable layer_fwd : layer_config -> params -> ndarray -> ndarray.
Variable nll : ndarray -> ndarray -> R.

(** The value of the KL expression on a batch of posterior parameters. *)
Lemma eval_kl_loss (W : weights params) (feed : feed_dict) (eps : ndarray)
  (zm zlv : tensor) (d : nat) (rows : posterior_batch) :
  eval layer_fwd nll W feed eps zm = Some (batch_means d rows) ->
  eval layer_fwd nll W feed eps zlv = Some (batch_log_vars d rows) ->
  Forall (fun row => length row = d) rows ->
  rows <> [] ->
  eval layer_fwd nll W feed eps (kl_loss_of zm zlv)
  = Some (scalar (kl_spec rows)).
Proof.
  intros Hm Hv Hrows Hne.
  unfold kl_loss_of. cbn [eval]. rewrite Hm, Hv.
  unfold batch_means, batch_log_vars.
  rewrite <- !concat_map.
  cbn [bind_opt option_map]. rewrite nd_map2_scalar_l.
  cbn [bind_opt nd_shape nd_data]. unfold nd_map. cbn [nd_shape nd_data].
  rewrite !map_map.
  rewrite nd_map2_same by (now rewrite !length_map).
  rewrite zip_with_map. cbn [bind_opt].
  rewrite nd_map2_same by (now rewrite !length_map).
  rewrite zip_with_map. cbn [bind_opt].
  unfold nd_sum_last. cbn [nd_shape nd_data removelast last prod_nat fold_right].
  rewrite Nat.mul_1_r.
  rewrite concat_map.
  rewrite chunks_concat_map by exact Hrows.
  cbn [bind_opt]. rewrite nd_map2_scalar_l. cbn [bind_opt nd_shape nd_data].
  rewrite !map_map.
  rewrite (map_ext _ kl_sample) by (intros row; apply kl_sample_sum).
  unfold nd_mean. cbn [nd_data].
  destruct rows as [|row rows]; [contradiction|].
  cbn [map]. unfold kl_spec. cbn [map length]. rewrite length_map.
  reflexivity.
Qed.

(** C4: the first loss bound to [encoder_train] is the KL expression on
    the two outputs of the encoder; on a non-empty batch of posterior
    parameters its value is
    [mean(-0.5 * sum(1 + z_log_var - z_mean^2 - exp(z_log_var), axis=latent))],
    and it is 0 when every mean and every log-variance of the batch is 0. *)
Theorem kl_loss_closed_form (w wd bm be : Q) (g : locals) (h : heap)
  (W : weights params) (feed : feed_dict) (eps : ndarray)
  (d : nat) (rows : posterior_batch) :
  create_models_body w wd bm be empty_heap = Ok (g, h) ->
  eval layer_fwd nll W feed eps (z_mean g) = Some (batch_means d rows) ->
  eval layer_fwd nll W feed eps (z_log_var g) = Some (batch_log_vars d rows) ->
  Forall (fun row => length row = d) rows ->
  rows <> [] ->
  nth_error (losses (encoder_train g)) 0 = Some (kl_loss g) /\
  kl_loss g = kl_loss_of (z_mean g) (z_log_var g) /\
  eval layer_fwd nll W feed eps (kl_loss g) = Some (scalar (kl_spec rows)) /\
  (Forall (Forall (fun p => p = (0, 0)%R)) rows ->
   eval layer_fwd nll W feed eps (kl_loss g) = Some (scalar 0)).
Proof.
  intros Hg Hm Hv Hrows Hne.
  assert (Hkl : kl_loss g = kl_loss_of (z_mean g) (z_log_var g)).
  { clear Hm Hv. run_body Hg. reflexivity. }
  split; [clear Hm Hv Hkl; run_body Hg; reflexivity|].
  split; [exact Hkl|].
  rewrite Hkl. rewrite (eval_kl_loss W feed eps _ _ _ _ Hm Hv Hrows Hne).
  split; [reflexivity|].
  intros Hz. rewrite (kl_spec_zero rows Hz). reflexivity.
Qed.

End KL.

(** ** How the returned graphs are wired *)

Definition mentions (ids : list nat) (l : layer) : bool :=
  existsb (Nat.eqb (layer_id l)) ids.

Fixpoint distinct (l : list nat) : bool :=
  match l with
  | [] => true
  | a :: r => negb (existsb (Nat.eqb a) r) && distinct r
  end.

Definition included (small big : list nat) : bool :=
  forallb (fun a => existsb (Nat.eqb a) big) small.

(** A tensor that does not depend on the noise. *)
Fixpoint noise_free (t : tensor) : bool :=
  match t with
  | InputTensor _ | Const _ => true
  | Apply _ a | LambdaOut _ a => noise_free a
  | Add a b | Sub a b | Mul a b | GaussianNLL a b => noise_free a && noise_free b
  | Exp a | Square a | SumLast a | Mean a => noise_free a
  | RandomNormal _ _ => false
  end.

Lemma existsb_eqb_In (a : nat) (l : list nat) :
  existsb (Nat.eqb a) l = true <-> In a l.
Proof.
  rewrite existsb_exists. split.
  - intros (b & Hb & E). apply Nat.eqb_eq in E. now subst.
  - intros H. exists a. split; [exact H|apply Nat.eqb_refl].
Qed.

Lemma distinct_NoDup (l : list nat) : distinct l = true -> NoDup l.
Proof.
  induction l as [|a l IH]; simpl; intros H; constructor.
  - apply andb_prop in H as [H _]. intros Hin.
    apply existsb_eqb_In in Hin. rewrite Hin in H. discriminate.
  - apply IH. now apply andb_prop in H as [_ H].
Qed.

Lemma included_incl (small big : list nat) :
  included small big = true -> incl small big.
Proof.
  unfold included. rewrite forallb_forall. intros H a Ha.
  apply existsb_eqb_In, H, Ha.
Qed.

Lemma unmentioned (ids : list nat) (ls : list layer) :
  forallb (fun l => negb (mentions ids l)) ls = true ->
  forall l, In l ls -> ~ In (layer_id l) ids.
Proof.
  rewrite forallb_forall. intros H l Hl Hin.
  specialize (H l Hl). apply existsb_eqb_In in Hin.
  unfold mentions in H. rewrite Hin in H. discriminate.
Qed.

(** The equations between the local variables of [create_models] that
    the model calls establish. *)
Record wiring (g : locals) : Prop := mkWiring {
  w_x : exists lx, x g = InputTensor lx /\ inputs (vae g) = [x g] /\
          inputs (decoder_train g) = [x g; z_p g] /\
          Forall (fun l => layer_id l = layer_id lx) (tensor_inputs (z g));
  w_z_p : exists lzp lx, z_p g = InputTensor lzp /\ x g = InputTensor lx /\
          layer_id lx <> layer_id lzp;
  w_decoder : exists ld o,
          inputs (decoder g) = [InputTensor ld] /\ outputs (decoder g) = [o] /\
          tensor_inputs o = [ld] /\ noise_free o = true /\
          x_tilde g = subst (inputs (decoder g)) [z g] o /\
          x_p g = subst (inputs (decoder g)) [z_p g] o /\
          (forall l, In l (tensor_layers o) ->
             In (layer_id l) (model_layer_ids (decoder g)));
  w_discriminator : exists ldis d d_feat,
          inputs (discriminator g) = [InputTensor ldis] /\
          outputs (discriminator g) = [d; d_feat] /\
          tensor_inputs d = [ldis] /\
          outputs (decoder_train g)
            = [subst (inputs (discriminator g)) [x_tilde g] d;
               subst (inputs (discriminator g)) [x_p g] d] /\
          (forall l, In l (tensor_layers d) ->
             ~ In (layer_id l) (model_layer_ids (decoder g)));
  w_latent : outputs (vae g) = [x_tilde g] /\
          tensor_inputs (z g) <> [] /\
          noise_free (z_mean g) = true /\ noise_free (z_log_var g) = true /\
          z g = LambdaOut (mkLayer 0 (Some "sampler"%string) (Lambda [latent_dim]))
                  (Add (z_mean g)
                     (Mul (Exp (Mul (Const 0.5) (z_log_var g)))
                        (RandomNormal (z_mean g) latent_dim))) /\
          (forall l, In l (tensor_layers (z g)) ->
             ~ In (layer_id l) (model_layer_ids (decoder g)))
}.

Arguments w_x {g}.
Arguments w_z_p {g}.
Arguments w_decoder {g}.
Arguments w_discriminator {g}.
Arguments w_latent {g}.

Lemma create_models_wiring (w wd bm be : Q) (g : locals) (h : heap) :
  create_models_body w wd bm be empty_heap = Ok (g, h) -> wiring g.
Proof.
  intros Hg. run_body Hg. constructor.
  - eexists. cbn [x z_p vae decoder_train inputs z].
    split; [reflexivity|]. split; [reflexivity|]. split; [reflexivity|].
    cbn [tensor_inputs app]. repeat constructor.
  - do 2 eexists. cbn [x z_p].
    split; [reflexivity|]. split; [reflexivity|]. cbn [layer_id]. discriminate.
  - do 2 eexists. cbn [decoder inputs outputs x_tilde x_p z z_p].
    split; [reflexivity|]. split; [reflexivity|]. split; [reflexivity|].
    split; [reflexivity|]. split; [reflexivity|]. split; [reflexivity|].
    intros l Hl. apply existsb_eqb_In. revert l Hl. apply Forall_forall.
    repeat constructor.
  - do 3 eexists.
    cbn [discriminator decoder decoder_train inputs outputs x_tilde x_p].
    split; [reflexivity|]. split; [reflexivity|]. split; [reflexivity|].
    split; [reflexivity|].
    apply unmentioned. vm_compute. reflexivity.
  - cbn [vae outputs x_tilde z z_mean z_log_var decoder].
    split; [reflexivity|]. split; [discriminate|].
    split; [reflexivity|]. split; [reflexivity|]. split; [reflexivity|].
    apply unmentioned. vm_compute. reflexivity.
Qed.

(** ** Shared weights *)

(** The [i]-th output of a model run on values for its inputs. *)
Definition predict_output {params : Type}
  (layer_fwd : layer_config -> params -> ndarray -> ndarray)
  (nll : ndarray -> ndarray -> R)
  (W : weights params) (m : model) (vs : list ndarray) (eps : ndarray) (i : nat)
  : option ndarray :=
  bind_opt (nth_error (outputs m) i)
           (eval layer_fwd nll W (feed_of (inputs m) vs) eps).

Lemma bind_opt_assoc {A B C} (o : option A) (f : A -> option B) (k : B -> option C) :
  bind_opt (bind_opt o f) k = bind_opt o (fun a => bind_opt (f a) k).
Proof. destruct o; reflexivity. Qed.

Section SharedWeights.

Variable params : Type.
Variable layer_fwd : layer_config -> params -> ndarray -> ndarray.
Variable nll : ndarray -> ndarray -> R.

Lemma eval_noise_free (W : weights params) (feed : feed_dict)
  (eps eps' : ndarray) (t : tensor) :
  noise_free t = true ->
  eval layer_fwd nll W feed eps t = eval layer_fwd nll W feed eps' t.
Proof.
  induction t as [l|l a IH|l b IH|c|a IHa b IHb|a IHa b IHb|a IHa b IHb
                 |a IH|a IH|a IH|a IH|b IH d|a IHa b IHb];
    cbn [eval noise_free]; intros H;
    try reflexivity; try discriminate;
    try (rewrite (IH H); reflexivity);
    apply andb_prop in H as [Ha Hb]; rewrite (IHa Ha), (IHb Hb); reflexivity.
Qed.

(** The latent sample of the graph does not read the decoder's weights. *)
Lemma eval_latent_frame (g : locals) (W W' : weights params)
  (feed : feed_dict) (xv : ndarray) (eps : ndarray) :
  wiring g ->
  (forall id, ~ In id (model_layer_ids (decoder g)) -> W' id = W id) ->
  (forall lx, x g = InputTensor lx -> feed (layer_id lx) = Some xv) ->
  eval layer_fwd nll W' feed eps (z g)
  = eval layer_fwd nll W (feed_of [x g] [xv]) eps (z g).
Proof.
  intros Hw HW Hfeed.
  destruct (w_x Hw) as (lx & Hx & _ & _ & Hins).
  destruct (w_latent Hw) as (_ & _ & _ & _ & _ & Hlay).
  apply eval_ext.
  - intros l Hl. apply HW, Hlay, Hl.
  - intros l Hl. rewrite Forall_forall in Hins.
    rewrite (Hins l Hl), (Hfeed lx Hx), Hx.
    cbn [feed_of]. rewrite Nat.eqb_refl. reflexivity.
Qed.

(** The reconstruction of the graph is the standalone decoder run on the
    latent sample. *)
Lemma eval_x_tilde (g : locals) (W W' : weights params)
  (feed : feed_dict) (xv : ndarray) (eps : ndarray) :
  wiring g ->
  (forall id, ~ In id (model_layer_ids (decoder g)) -> W' id = W id) ->
  (forall lx, x g = InputTensor lx -> feed (layer_id lx) = Some xv) ->
  eval layer_fwd nll W' feed eps (x_tilde g)
  = bind_opt (eval layer_fwd nll W (feed_of [x g] [xv]) eps (z g))
      (fun zv => predict_output layer_fwd nll W' (decoder g) [zv] eps 0).
Proof.
  intros Hw HW Hfeed.
  destruct (w_decoder Hw) as (ld & o & Hin & Hout & Hoi & _ & Hxt & _ & _).
  rewrite Hxt.
  rewrite (eval_call _ layer_fwd nll W' W' feed eps (decoder g) ld (z g) o Hin).
  - rewrite (eval_latent_frame g W W' feed xv eps Hw HW Hfeed).
    unfold predict_output. rewrite Hout. reflexivity.
  - rewrite Hoi. discriminate.
  - intros l Hl. rewrite Hoi in Hl. destruct Hl as [<-|[]]. reflexivity.
  - reflexivity.
Qed.

(** The pure generation of the graph is the standalone decoder run on
    the prior sample fed to [z_p]. *)
Lemma eval_x_p (g : locals) (W' : weights params)
  (feed : feed_dict) (zpv : ndarray) (eps : ndarray) :
  wiring g ->
  (forall lzp, z_p g = InputTensor lzp -> feed (layer_id lzp) = Some zpv) ->
  eval layer_fwd nll W' feed eps (x_p g)
  = predict_output layer_fwd nll W' (decoder g) [zpv] eps 0.
Proof.
  intros Hw Hfeed.
  destruct (w_decoder Hw) as (ld & o & Hin & Hout & Hoi & _ & _ & Hxp & _).
  destruct (w_z_p Hw) as (lzp & lx & Hzp & _ & _).
  rewrite Hxp.
  rewrite (eval_call _ layer_fwd nll W' W' feed eps (decoder g) ld (z_p g) o Hin).
  - rewrite Hzp. cbn [eval]. rewrite (Hfeed lzp Hzp). cbn [bind_opt].
    unfold predict_output. rewrite Hout. reflexivity.
  - rewrite Hoi. discriminate.
  - intros l Hl. rewrite Hoi in Hl. destruct Hl as [<-|[]]. reflexivity.
  - reflexivity.
Qed.

(** A realism score of the graph is the standalone discriminator run on
    the image it is computed from; it does not read the decoder's
    weights. *)
Lemma eval_score (g : locals) (W W' : weights params)
  (feed : feed_dict) (eps : ndarray) (t d d_feat : tensor) :
  wiring g ->
  (forall id, ~ In id (model_layer_ids (decoder g)) -> W' id = W id) ->
  outputs (discriminator g) = [d; d_feat] ->
  eval layer_fwd nll W' feed eps (subst (inputs (discriminator g)) [t] d)
  = bind_opt (eval layer_fwd nll W' feed eps t)
      (fun v => predict_output layer_fwd nll W (discriminator g) [v] eps 0).
Proof.
  intros Hw HW Hout.
  destruct (w_discriminator Hw) as (ldis & d' & f' & Hin & Hout' & Hdi & _ & Hlay).
  rewrite Hout in Hout'. injection Hout' as <- <-.
  rewrite (eval_call _ layer_fwd nll W' W feed eps (discriminator g) ldis t d Hin).
  - unfold predict_output. rewrite Hout. reflexivity.
  - rewrite Hdi. discriminate.
  - intros l Hl. rewrite Hdi in Hl. destruct Hl as [<-|[]]. reflexivity.
  - intros l Hl. apply HW, Hlay, Hl.
Qed.

End SharedWeights.

(** Two lists of identities with the same elements. *)
Definition same_ids (a b : list nat) : Prop := incl a b /\ incl b a.

(** Running a value through a chain of layer objects, each with the
    weights it holds. *)
Definition run_layers {params : Type}
  (layer_fwd : layer_config -> params -> ndarray -> ndarray)
  (W : weights params) (ls : list layer) (v : ndarray) : ndarray :=
  fold_left (fun u l => layer_fwd (layer_cfg l) (W (layer_id l)) u) ls v.

(** The layers of the decoder, in the order in which they are applied. *)
Definition decoder_chain (g : locals) : list layer :=
  rev (flat_map tensor_layers (outputs (decoder g))).

(** The layers on the way to the discriminator's score, in the order in
    which they are applied. *)
Definition score_chain (g : locals) : list layer :=
  match outputs (discriminator g) with
  | d :: _ => rev (tensor_layers d)
  | [] => []
  end.

Lemma same_ids_included (a b : list nat) :
  included a b = true -> included b a = true -> same_ids a b.
Proof. intros H1 H2. split; apply included_incl; assumption. Qed.

Section Sharing.

Variable params : Type.
Variable layer_fwd : layer_config -> params -> ndarray -> ndarray.
Variable nll : ndarray -> ndarray -> R.

(** C2: encoder, decoder and discriminator are built once: the 53
    constructed objects have the identities 0 to 52, the decoder is made
    of the objects 1 to 14, the encoder of 17 to 31 and the discriminator
    of 33 to 50 without the two discarded ones, no object belongs to two
    of them, and every constructed layer with a kernel belongs to one of
    them.  Every composite graph is made of these same objects (and the
    weightless sampler) and contains all of the encoder's and of the
    decoder's.  The standalone decoder is the chain of its 14 layers and
    the score of the standalone discriminator the chain of 16 layers,
    each layer reading the weights held by its own object, and their
    outputs are always defined.  Hence, for every input and every noise
    draw, when the weights [W'] differ from [W] on layers of the decoder
    only, the output of [vae] and the two outputs of [decoder_train]
    under [W'] are obtained from the standalone decoder under [W'],
    applied to the same latent sample as under [W] (and followed, for
    [decoder_train], by the unchanged discriminator); these outputs are
    defined whenever the latent sample is, and the second output of
    [decoder_train] always. *)
Theorem weights_are_shared (w wd bm be : Q) (g : locals) (h : heap) :
  create_models_body w wd bm be empty_heap = Ok (g, h) ->
  (map layer_id (created h) = seq 0 53 /\
   same_ids (model_layer_ids (decoder g)) (seq 1 14) /\
   same_ids (model_layer_ids (encoder g)) (seq 17 15) /\
   same_ids (model_layer_ids (discriminator g))
            (seq 33 8 ++ [42%nat] ++ seq 44 7) /\
   (forall l, In l (created h) -> has_kernel l = true ->
      In (layer_id l)
         (model_layer_ids (encoder g) ++ model_layer_ids (decoder g)
          ++ model_layer_ids (discriminator g)))) /\
  NoDup (model_layer_ids (encoder g) ++ model_layer_ids (decoder g)
         ++ model_layer_ids (discriminator g)) /\
  Forall (fun m =>
            incl (model_layer_ids m)
                 (0%nat :: model_layer_ids (encoder g)
                    ++ model_layer_ids (decoder g)
                    ++ model_layer_ids (discriminator g)))
         [encoder_train g; decoder_train g; discriminator_train g; vae g; vaegan g] /\
  (Forall (fun m =>
             incl (model_layer_ids (encoder g) ++ model_layer_ids (decoder g))
                  (model_layer_ids m))
          [encoder_train g; decoder_train g; discriminator_train g; vae g; vaegan g] /\
   Forall (fun m => incl (model_layer_ids (discriminator g)) (model_layer_ids m))
          [decoder_train g; discriminator_train g; vaegan g]) /\
  (incl (decoder_chain g) (created h) /\
   map layer_id (decoder_chain g)
   = [1; 2; 3; 4; 6; 7; 5; 9; 10; 8; 12; 13; 11; 14]%nat /\
   forall (W : weights params) (zv eps : ndarray),
     predict_output layer_fwd nll W (decoder g) [zv] eps 0
     = Some (run_layers layer_fwd W (decoder_chain g) zv)) /\
  (incl (score_chain g) (created h) /\
   map layer_id (score_chain g)
   = [33; 34; 36; 37; 35; 39; 40; 38; 42; 44; 45; 46; 47; 48; 49; 50]%nat /\
   forall (W : weights params) (v eps : ndarray),
     predict_output layer_fwd nll W (discriminator g) [v] eps 0
     = Some (run_layers layer_fwd W (score_chain g) v)) /\
  forall (W W' : weights params) (xv zpv eps : ndarray),
    (forall id, ~ In id (model_layer_ids (decoder g)) -> W' id = W id) ->
    let latent := eval layer_fwd nll W (feed_of [x g] [xv]) eps (z g) in
    (predict_output layer_fwd nll W' (vae g) [xv] eps 0
     = bind_opt latent (fun zv =>
         predict_output layer_fwd nll W' (decoder g) [zv] eps 0) /\
     predict_output layer_fwd nll W' (decoder_train g) [xv; zpv] eps 0
     = bind_opt latent (fun zv =>
       bind_opt (predict_output layer_fwd nll W' (decoder g) [zv] eps 0) (fun xt =>
         predict_output layer_fwd nll W (discriminator g) [xt] eps 0)) /\
     predict_output layer_fwd nll W' (decoder_train g) [xv; zpv] eps 1
     = bind_opt (predict_output layer_fwd nll W' (decoder g) [zpv] eps 0) (fun xp =>
         predict_output layer_fwd nll W (discriminator g) [xp] eps 0)) /\
    (forall zv, latent = Some zv ->
       predict_output layer_fwd nll W' (vae g) [xv] eps 0
       = Some (run_layers layer_fwd W' (decoder_chain g) zv) /\
       predict_output layer_fwd nll W' (decoder_train g) [xv; zpv] eps 0
       = Some (run_layers layer_fwd W (score_chain g)
                 (run_layers layer_fwd W' (decoder_chain g) zv))) /\
    predict_output layer_fwd nll W' (decoder_train g) [xv; zpv] eps 1
    = Some (run_layers layer_fwd W (score_chain g)
              (run_layers layer_fwd W' (decoder_chain g) zpv)).
Proof.
  intros Hg. pose proof (create_models_wiring w wd bm be g h Hg) as Hw.
  assert (Hchain : forall (W : weights params) (zv eps : ndarray),
             predict_output layer_fwd nll W (decoder g) [zv] eps 0
             = Some (run_layers layer_fwd W (decoder_chain g) zv)).
  { clear Hw. run_body Hg. intros W zv eps. reflexivity. }
  assert (Hscore : forall (W : weights params) (v eps : ndarray),
             predict_output layer_fwd nll W (discriminator g) [v] eps 0
             = Some (run_layers layer_fwd W (score_chain g) v)).
  { clear Hw Hchain. run_body Hg. intros W v eps. reflexivity. }
  split; [|split; [|split; [|split; [|split; [|split]]]]].
  - clear Hw Hchain Hscore. run_body Hg.
    split; [reflexivity|].
    split; [apply same_ids_included; vm_compute; reflexivity|].
    split; [apply same_ids_included; vm_compute; reflexivity|].
    split; [apply same_ids_included; vm_compute; reflexivity|].
    cbn [created].
    match goal with
    | |- forall l, In l ?L -> @?P l => apply (proj1 (Forall_forall P L))
    end.
    repeat (apply Forall_cons;
            [first [ intros E; discriminate E
                   | intros _; apply existsb_eqb_In; vm_compute; reflexivity ]|]).
    apply Forall_nil.
  - clear Hw Hchain Hscore. run_body Hg. apply distinct_NoDup. vm_compute. reflexivity.
  - clear Hw Hchain Hscore. run_body Hg.
    repeat (apply Forall_cons; [apply included_incl; vm_compute; reflexivity|]).
    apply Forall_nil.
  - clear Hw Hchain Hscore. run_body Hg. split.
    + repeat (apply Forall_cons; [apply included_incl; vm_compute; reflexivity|]).
      apply Forall_nil.
    + repeat (apply Forall_cons; [apply included_incl; vm_compute; reflexivity|]).
      apply Forall_nil.
  - split; [|split; [|exact Hchain]]; clear Hw Hchain Hscore; run_body Hg.
    + apply incl_Forall_in_iff.
      cbv [decoder_chain decoder outputs flat_map tensor_layers app rev created].
      repeat (apply Forall_cons; [cbn [In]; auto 30|]). apply Forall_nil.
    + reflexivity.
  - split; [|split; [|exact Hscore]]; clear Hw Hchain Hscore; run_body Hg.
    + apply incl_Forall_in_iff.
      cbv [score_chain discriminator outputs tensor_layers app rev created].
      repeat (apply Forall_cons; [cbn [In]; auto 60|]). apply Forall_nil.
    + reflexivity.
  - clear Hg. intros W W' xv zpv eps HW latent.
    assert (Hvae : predict_output layer_fwd nll W' (vae g) [xv] eps 0
                   = bind_opt latent (fun zv =>
                       predict_output layer_fwd nll W' (decoder g) [zv] eps 0)).
    { subst latent.
      destruct (w_x Hw) as (lx & Hx & Hvin & _ & _).
      destruct (w_latent Hw) as (Hvo & _).
      unfold predict_output at 1. rewrite Hvo, Hvin. cbn [nth_error bind_opt].
      apply eval_x_tilde; [exact Hw|exact HW|].
      intros l Hl. rewrite Hx in Hl. injection Hl as <-. rewrite Hx.
      cbn [feed_of]. now rewrite Nat.eqb_refl. }
    assert (Htrain :
      predict_output layer_fwd nll W' (decoder_train g) [xv; zpv] eps 0
      = bind_opt latent (fun zv =>
        bind_opt (predict_output layer_fwd nll W' (decoder g) [zv] eps 0) (fun xt =>
          predict_output layer_fwd nll W (discriminator g) [xt] eps 0)) /\
      predict_output layer_fwd nll W' (decoder_train g) [xv; zpv] eps 1
      = bind_opt (predict_output layer_fwd nll W' (decoder g) [zpv] eps 0) (fun xp =>
          predict_output layer_fwd nll W (discriminator g) [xp] eps 0)).
    { subst latent.
      destruct (w_x Hw) as (lx & Hx & Hvin & Hdin & _).
      destruct (w_z_p Hw) as (lzp & lx' & Hzp & Hx' & Hne).
      rewrite Hx in Hx'. injection Hx' as <-.
      destruct (w_discriminator Hw) as (ldis & d & d_feat & _ & Hdo & _ & Hto & _).
      assert (Hfx : forall l, x g = InputTensor l ->
                    feed_of [x g; z_p g] [xv; zpv] (layer_id l) = Some xv).
      { intros l Hl. rewrite Hx in Hl. injection Hl as <-. rewrite Hx.
        cbn [feed_of]. now rewrite Nat.eqb_refl. }
      assert (Hfz : forall l, z_p g = InputTensor l ->
                    feed_of [x g; z_p g] [xv; zpv] (layer_id l) = Some zpv).
      { intros l Hl. rewrite Hzp in Hl. injection Hl as <-. rewrite Hx, Hzp.
        cbn [feed_of]. apply Nat.eqb_neq in Hne. now rewrite Hne, Nat.eqb_refl. }
      split.
      * unfold predict_output at 1. rewrite Hto, Hdin. cbn [nth_error bind_opt].
        rewrite (eval_score _ layer_fwd nll g W W' _ eps (x_tilde g) d d_feat Hw HW Hdo).
        rewrite (eval_x_tilde _ layer_fwd nll g W W' _ xv eps Hw HW Hfx).
        apply bind_opt_assoc.
      * unfold predict_output at 1. rewrite Hto, Hdin. cbn [nth_error bind_opt].
        rewrite (eval_score _ layer_fwd nll g W W' _ eps (x_p g) d d_feat Hw HW Hdo).
        rewrite (eval_x_p _ layer_fwd nll g W' _ zpv eps Hw Hfz). reflexivity. }
    destruct Htrain as [Ht0 Ht1].
    split; [split; [exact Hvae|split; [exact Ht0|exact Ht1]]|split].
    + intros zv Hz. split.
      * rewrite Hvae, Hz. cbn [bind_opt]. apply Hchain.
      * rewrite Ht0, Hz. cbn [bind_opt]. rewrite Hchain. cbn [bind_opt].
        apply Hscore.
    + rewrite Ht1, Hchain. cbn [bind_opt]. apply Hscore.
Qed.

End Sharing.


(** ** The reconstruction depends on the noise *)

(** The noise entry that makes the sampler return [z]. *)
Definition solve_noise (m v z : R) : R := ((z - m) / exp (0.5 * v))%R.

Lemma reparameterize_solve (m v z : list R) :
  length v = length m -> length z = length m ->
  zip3 reparameterize m v (zip3 solve_noise m v z) = z.
Proof.
  revert v z; induction m as [|a m IH]; intros [|b v] [|c z]; simpl;
    try discriminate; try reflexivity.
  intros Hv Hz. injection Hv as Hv. injection Hz as Hz.
  rewrite (IH v z Hv Hz). f_equal.
  unfold reparameterize, solve_noise. field.
  apply Rgt_not_eq, exp_pos.
Qed.

Section Stochastic.

Variable params : Type.
Variable layer_fwd : layer_config -> params -> ndarray -> ndarray.
Variable nll : ndarray -> ndarray -> R.

(** Every latent batch is the sample of some noise draw, so [vae] can
    return whatever the decoder returns on a latent batch. *)
Lemma vae_reaches (g : locals) (W : weights params) (xv eps0 : ndarray)
  (n : nat) (m v z : list R) :
  wiring g ->
  eval layer_fwd nll W (feed_of [x g] [xv]) eps0 (z_mean g)
    = Some (mkArr [n; 128%nat] m) ->
  eval layer_fwd nll W (feed_of [x g] [xv]) eps0 (z_log_var g)
    = Some (mkArr [n; 128%nat] v) ->
  length m = (n * 128)%nat -> length v = (n * 128)%nat ->
  length z = (n * 128)%nat ->
  exists eps,
    is_draw n 128 eps = true /\
    predict_output layer_fwd nll W (vae g) [xv] eps 0
    = predict_output layer_fwd nll W (decoder g) [mkArr [n; 128%nat] z] eps0 0.
Proof.
  intros Hw Hm Hv Lm Lv Lz.
  set (eps := mkArr [n; 128%nat] (zip3 solve_noise m v z)).
  assert (Hd : is_draw n 128 eps = true).
  { unfold is_draw, eps. cbn [nd_shape nd_data].
    rewrite dims_eqb_refl, zip3_length by congruence.
    rewrite Lm. apply Nat.eqb_refl. }
  exists eps. split; [exact Hd|].
  destruct (w_x Hw) as (lx & Hx & Hvin & _ & _).
  destruct (w_latent Hw) as (Hvo & _ & Hnm & Hnv & Hz & _).
  destruct (w_decoder Hw) as (ld & o & _ & Hout & _ & Hno & _).
  unfold predict_output at 1. rewrite Hvo, Hvin. cbn [nth_error bind_opt].
  rewrite (eval_x_tilde _ layer_fwd nll g W W (feed_of [x g] [xv]) xv eps Hw).
  - rewrite Hz.
    change (eval layer_fwd nll W (feed_of [x g] [xv]) eps (LambdaOut ?l ?b))
      with (eval layer_fwd nll W (feed_of [x g] [xv]) eps b).
    rewrite (eval_noise_free _ layer_fwd nll W _ eps0 eps _ Hnm) in Hm.
    rewrite (eval_noise_free _ layer_fwd nll W _ eps0 eps _ Hnv) in Hv.
    rewrite (eval_sampling _ layer_fwd nll W _ eps (z_mean g) (z_log_var g)
               latent_dim n m v Hm Hv Lm Lv Hd).
    cbn [bind_opt]. unfold eps at 1. cbn [nd_data].
    rewrite reparameterize_solve by congruence.
    unfold predict_output. rewrite Hout. cbn [nth_error bind_opt].
    apply eval_noise_free, Hno.
  - reflexivity.
  - intros l Hl. rewrite Hx in Hl. injection Hl as <-. rewrite Hx.
    cbn [feed_of]. now rewrite Nat.eqb_refl.
Qed.

(** C10: the output of [vae] is the decoder applied to the sampler's
    output, which contains the noise, not to [z_mean].  So whenever the
    decoder tells two latent batches apart, two noise draws make [vae]
    return different reconstructions of the same image under the same
    weights. *)
Theorem vae_is_not_deterministic (w wd bm be : Q) (g : locals) (h : heap) :
  create_models_body w wd bm be empty_heap = Ok (g, h) ->
  (exists o,
     outputs (vae g) = [x_tilde g] /\
     outputs (decoder g) = [o] /\
     x_tilde g = subst (inputs (decoder g)) [z g] o /\
     x_tilde g <> subst (inputs (decoder g)) [z_mean g] o /\
     In (RandomNormal (z_mean g) latent_dim) (subtensors (z g)) /\
     In (z g) (subtensors (x_tilde g))) /\
  forall (W : weights params) (xv eps0 : ndarray) (n : nat)
         (m v z1 z2 : list R) (o1 o2 : ndarray),
    eval layer_fwd nll W (feed_of [x g] [xv]) eps0 (z_mean g)
      = Some (mkArr [n; 128%nat] m) ->
    eval layer_fwd nll W (feed_of [x g] [xv]) eps0 (z_log_var g)
      = Some (mkArr [n; 128%nat] v) ->
    length m = (n * 128)%nat -> length v = (n * 128)%nat ->
    length z1 = (n * 128)%nat -> length z2 = (n * 128)%nat ->
    predict_output layer_fwd nll W (decoder g) [mkArr [n; 128%nat] z1] eps0 0
      = Some o1 ->
    predict_output layer_fwd nll W (decoder g) [mkArr [n; 128%nat] z2] eps0 0
      = Some o2 ->
    o1 <> o2 ->
    exists eps1 eps2,
      is_draw n 128 eps1 = true /\ is_draw n 128 eps2 = true /\
      predict_output layer_fwd nll W (vae g) [xv] eps1 0 = Some o1 /\
      predict_output layer_fwd nll W (vae g) [xv] eps2 0 = Some o2 /\
      predict_output layer_fwd nll W (vae g) [xv] eps1 0
        <> predict_output layer_fwd nll W (vae g) [xv] eps2 0.
Proof.
  intros Hg. pose proof (create_models_wiring w wd bm be g h Hg) as Hw.
  split.
  - clear Hw. run_body Hg. eexists.
    cbn [vae decoder outputs inputs x_tilde z z_mean].
    split; [reflexivity|]. split; [reflexivity|]. split; [reflexivity|].
    split; [discriminate|].
    split.
    { cbn [subtensors]. right. right. apply in_or_app. right. right.
      apply in_or_app. right. left. reflexivity. }
    cbn [subtensors In]. do 14 right. left. reflexivity.
  - clear Hg. intros W xv eps0 n m v z1 z2 o1 o2 Hm Hv Lm Lv L1 L2 H1 H2 Hne.
    destruct (vae_reaches g W xv eps0 n m v z1 Hw Hm Hv Lm Lv L1) as (e1 & D1 & E1).
    destruct (vae_reaches g W xv eps0 n m v z2 Hw Hm Hv Lm Lv L2) as (e2 & D2 & E2).
    exists e1, e2. rewrite E1, E2, H1, H2.
    repeat split; auto. intros E. injection E as E. contradiction.
Qed.

End Stochastic.

(** ** Instances

    A framework in which every layer returns its input and the
    feature-similarity loss is constant: enough to run the graphs on a
    batch of one sample. *)

Definition identity_fwd (c : layer_config) (p : unit) (v : ndarray) : ndarray := v.
Definition constant_nll (a b : ndarray) : R := 1%R.
Definition unit_weights : weights unit := fun _ => tt.
Definition zero_batch : ndarray := mkArr [1; 128]%nat (repeat 0%R 128).
Definition one_batch : ndarray := mkArr [1; 128]%nat (repeat 1%R 128).
Definition zero_posterior : posterior_batch := [repeat (0, 0)%R 128].

Lemma sampler_is_reparameterization_witness :
  exists g h,
    create_models_body default_recon_vs_gan_weight default_wdecay
      default_bn_mom default_bn_eps empty_heap = Ok (g, h) /\
    eval identity_fwd constant_nll unit_weights (feed_of [x g] [zero_batch])
      one_batch (z g)
    = Some (mkArr [1; 128]%nat
              (zip3 reparameterize (repeat 0%R 128) (repeat 0%R 128)
                 (repeat 1%R 128))).
Proof.
  destruct (body_succeeds default_recon_vs_gan_weight default_wdecay
              default_bn_mom default_bn_eps eq_refl) as (g & h & Hg).
  exists g, h. split; [exact Hg|].
  refine (proj2 (proj2 (proj2
    (proj2 (sampler_is_reparameterization unit identity_fwd constant_nll)
       _ _ _ _ g h unit_weights (feed_of [x g] [zero_batch]) one_batch
       1%nat (repeat 0%R 128) (repeat 0%R 128) Hg _ _ _ _ _))));
    try reflexivity; run_body Hg; reflexivity.
Defined.

Lemma kl_loss_closed_form_witness :
  exists g h,
    create_models_body default_recon_vs_gan_weight default_wdecay
      default_bn_mom default_bn_eps empty_heap = Ok (g, h) /\
    eval identity_fwd constant_nll unit_weights (feed_of [x g] [zero_batch])
      zero_batch (kl_loss g)
    = Some (scalar 0).
Proof.
  destruct (body_succeeds default_recon_vs_gan_weight default_wdecay
              default_bn_mom default_bn_eps eq_refl) as (g & h & Hg).
  exists g, h. split; [exact Hg|].
  refine (proj2 (proj2 (proj2
    (kl_loss_closed_form unit identity_fwd constant_nll _ _ _ _ g h
       unit_weights (feed_of [x g] [zero_batch]) zero_batch
       128%nat zero_posterior Hg _ _ _ _))) _).
  - run_body Hg. reflexivity.
  - run_body Hg. reflexivity.
  - repeat constructor.
  - discriminate.
  - repeat constructor.
Defined.

Lemma decoder_train_loss_is_scaled_similarity_witness :
  exists g h,
    create_models_body (1 # 2) default_wdecay default_bn_mom default_bn_eps
      empty_heap = Ok (g, h) /\
    eval_all identity_fwd constant_nll unit_weights
      (feed_of [x g] [zero_batch]) zero_batch (losses (decoder_train g))
    = Some [scalar (Q2R (1 # 2) / (1 - Q2R (1 # 2)) * 1)].
Proof.
  destruct (decoder_train_loss_is_scaled_similarity unit identity_fwd
              constant_nll (1 # 2) default_wdecay default_bn_mom default_bn_eps)
    as (g & h & fx & ft & Hg & _ & _ & _ & _ & Hloss).
  - split; reflexivity.
  - exists g, h. split; [exact Hg|].
    apply Hloss. run_body Hg. reflexivity.
Defined.

(** A framework in which every layer returns the weight it holds,
    broadcast over the shape of its input. *)
Definition weight_fwd (c : layer_config) (p : R) (v : ndarray) : ndarray :=
  nd_map (fun _ => p) v.
Definition zero_weights : weights R := fun _ => 0%R.
(** The weights changed on the output convolution of the decoder. *)
Definition changed_weights : weights R :=
  fun id => if Nat.eqb id 14 then 1%R else 0%R.

Lemma weights_are_shared_witness :
  exists g h,
    create_models_body default_recon_vs_gan_weight default_wdecay
      default_bn_mom default_bn_eps empty_heap = Ok (g, h) /\
    predict_output weight_fwd constant_nll zero_weights (vae g)
      [zero_batch] zero_batch 0 = Some zero_batch /\
    predict_output weight_fwd constant_nll changed_weights (vae g)
      [zero_batch] zero_batch 0 = Some one_batch /\
    predict_output weight_fwd constant_nll changed_weights (decoder g)
      [zero_batch] zero_batch 0 = Some one_batch.
Proof.
  destruct (body_succeeds default_recon_vs_gan_weight default_wdecay
              default_bn_mom default_bn_eps eq_refl) as (g & h & Hg).
  exists g, h. split; [exact Hg|].
  pose proof (weights_are_shared R weight_fwd constant_nll _ _ _ _ g h Hg)
    as ((_ & Hdec & _) & _ & _ & _ & (_ & _ & Hchain) & _ & Hshare).
  assert (Hlat : forall W : weights R,
             (forall id, id <> 14%nat -> W id = 0%R) ->
             exists zv,
               eval weight_fwd constant_nll zero_weights
                 (feed_of [x g] [zero_batch]) zero_batch (z g) = Some zv /\
               run_layers weight_fwd W (decoder_chain g) zv
               = mkArr [1; 128]%nat (repeat (W 14%nat) 128)).
  { intros W HW. run_body Hg. eexists. split; reflexivity. }
  split; [|split].
  - destruct (Hlat zero_weights (fun _ _ => eq_refl)) as (zv & Hz & Hv).
    rewrite (proj1 (proj1 (proj2 (Hshare zero_weights zero_weights zero_batch
                      zero_batch zero_batch (fun _ _ => eq_refl))) zv Hz)).
    rewrite Hv. reflexivity.
  - assert (HW : forall id, ~ In id (model_layer_ids (decoder g)) ->
                   changed_weights id = zero_weights id).
    { intros id Hn. unfold changed_weights, zero_weights.
      destruct (Nat.eqb_spec id 14) as [->|_]; [|reflexivity].
      exfalso. apply Hn. apply (proj2 Hdec). cbn. auto 20. }
    destruct (Hlat changed_weights) as (zv & Hz & Hv).
    { intros id Hid. unfold changed_weights.
      destruct (Nat.eqb_spec id 14) as [E|_]; [contradiction|reflexivity]. }
    rewrite (proj1 (proj1 (proj2 (Hshare zero_weights changed_weights zero_batch
                      zero_batch zero_batch HW)) zv Hz)).
    rewrite Hv. reflexivity.
  - rewrite Hchain. run_body Hg. reflexivity.
Defined.

Lemma vae_is_not_deterministic_witness :
  exists g h eps1 eps2,
    create_models_body default_recon_vs_gan_weight default_wdecay
      default_bn_mom default_bn_eps empty_heap = Ok (g, h) /\
    predict_output identity_fwd constant_nll unit_weights (vae g)
      [zero_batch] eps1 0 = Some zero_batch /\
    predict_output identity_fwd constant_nll unit_weights (vae g)
      [zero_batch] eps2 0 = Some one_batch.
Proof.
  destruct (body_succeeds default_recon_vs_gan_weight default_wdecay
              default_bn_mom default_bn_eps eq_refl) as (g & h & Hg).
  destruct (proj2 (vae_is_not_deterministic unit identity_fwd constant_nll
                     _ _ _ _ g h Hg)
              unit_weights zero_batch zero_batch 1%nat
              (repeat 0%R 128) (repeat 0%R 128) (repeat 0%R 128) (repeat 1%R 128)
              zero_batch one_batch)
    as (eps1 & eps2 & _ & _ & H1 & H2 & _);
    try reflexivity; try (run_body Hg; reflexivity).
  - unfold zero_batch, one_batch. intros E. injection E as E. lra.
  - exists g, h, eps1, eps2. auto.
Defined.

(** ** Further properties of the builder *)

(** *** [conv_block] *)

(** X2: on a 4-D tensor with known height, width and number of
    channels, [conv_block] halves the two spatial dimensions (rounding up)
    and [conv_block(..., transpose=True)] doubles them; the channel
    dimension becomes [filters] and the batch dimension is kept. *)
Theorem conv_block_output_shape (wd bm be : Q) (x : tensor) (filters : N)
  (leaky transpose : bool) (h : heap) (b : option N) (ht w c : N) :
  int_shape x = Some [b; Some ht; Some w; Some c] ->
  exists y h',
    conv_block_on wd bm be x filters leaky transpose h = Ok (y, h') /\
    int_shape y
    = Some (if transpose
            then [b; Some (ht * 2)%N; Some (w * 2)%N; Some filters]
            else [b; Some ((ht + 1) / 2)%N; Some ((w + 1) / 2)%N; Some filters]).
Proof.
  intros Hx. do 2 eexists. split.
  - unfold conv_block_on, conv_block, bind, new_layer, ret. reflexivity.
  - cbn [fold_left int_shape layer_cfg]. rewrite Hx.
    assert (E : forall n, (n + 2 - 1 = n + 1)%N) by (intros; lia).
    destruct transpose, leaky; cbn; rewrite ?E; reflexivity.
Qed.

Lemma conv_block_output_shape_witness :
  exists y h',
    conv_block_on default_wdecay default_bn_mom default_bn_eps
      (InputTensor (mkLayer 0 None (InputLayer image_shape))) 64 true false
      (mkHeap 1 []) = Ok (y, h') /\
    int_shape y = Some [None; Some 32; Some 32; Some 64]%N.
Proof.
  exact (conv_block_output_shape default_wdecay default_bn_mom default_bn_eps
           (InputTensor (mkLayer 0 None (InputLayer image_shape))) 64 true false
           (mkHeap 1 []) None 64 64 3 eq_refl).
Defined.

(** *** The layer objects [create_models] constructs *)

(** The objects a model is made of: the layers on the way to its outputs
    and losses, and the input layers. *)
Definition model_objects (m : model) : list nat :=
  map layer_id
    (flat_map (fun t => tensor_layers t ++ tensor_inputs t)
       (inputs m ++ outputs m ++ losses m)).

Definition used_objects (g : locals) : list nat :=
  flat_map model_objects (returned g).

(** The constructed layer objects that no returned graph contains. *)
Definition unused_layers (g : locals) (h : heap) : list layer :=
  filter (fun l => negb (mentions (used_objects g) l)) (created h).

Definition id_name (l : layer) : nat * option string := (layer_id l, layer_name l).

Definition is_named (l : layer) : bool :=
  match layer_name l with Some _ => true | None => false end.

Definition without_regularizer (l : layer) : layer :=
  mkLayer (layer_id l) (layer_name l)
    match layer_cfg l with
    | Conv2D f k s p a _ i => Conv2D f k s p a None i
    | Conv2DTranspose f k s p a _ i => Conv2DTranspose f k s p a None i
    | Dense u a _ i => Dense u a None i
    | c => c
    end.

Definition well_shaped (t : tensor) : bool :=
  match int_shape t with Some _ => true | None => false end.

(** X3: whatever the hyper-parameters, a successful [create_models]
    constructs exactly 53 layer objects, with identities 0 to 52 in the
    order of construction. *)
Theorem create_models_constructs_53_layers (w wd bm be : Q) (g : locals) (h : heap) :
  create_models_body w wd bm be empty_heap = Ok (g, h) ->
  map layer_id (created h) = seq 0 53 /\ next_id h = 53%nat.
Proof. intros Hg. run_body Hg. split; reflexivity. Qed.

Lemma create_models_constructs_53_layers_witness :
  exists g h,
    create_models_body default_recon_vs_gan_weight default_wdecay
      default_bn_mom default_bn_eps empty_heap = Ok (g, h) /\
    next_id h = 53%nat.
Proof.
  destruct (body_succeeds default_recon_vs_gan_weight default_wdecay
              default_bn_mom default_bn_eps eq_refl) as (g & h & Hg).
  exists g, h. split; [exact Hg|].
  exact (proj2 (create_models_constructs_53_layers _ _ _ _ g h Hg)).
Defined.

(** X4: two of the constructed layers end up in no returned graph: the
    LeakyReLU and the batch normalization of the [conv_block(None, 256)]
    call in [create_discriminator], of which only element 0 (the
    convolution) is applied.  Every other constructed layer is part of a
    returned graph. *)
Theorem discarded_layers (w wd bm be : Q) (g : locals) (h : heap) :
  create_models_body w wd bm be empty_heap = Ok (g, h) ->
  map id_cfg (unused_layers g h)
  = [ (41%nat, LeakyReLU leaky_relu_alpha);
      (43%nat, BatchNormalization (Some bm) (Some be)) ] /\
  forall l, In l (created h) -> ~ In l (unused_layers g h) ->
            In (layer_id l) (used_objects g).
Proof.
  intros Hg. split.
  - run_body Hg. vm_compute. reflexivity.
  - intros l Hl Hn. unfold unused_layers in Hn.
    rewrite filter_In in Hn.
    destruct (mentions (used_objects g) l) eqn:E.
    + apply existsb_eqb_In. exact E.
    + exfalso. apply Hn. split; [exact Hl|reflexivity].
Qed.

Lemma discarded_layers_witness :
  exists g h,
    create_models_body default_recon_vs_gan_weight default_wdecay
      default_bn_mom default_bn_eps empty_heap = Ok (g, h) /\
    map id_cfg (unused_layers g h)
    = [ (41%nat, LeakyReLU leaky_relu_alpha);
        (43%nat, BatchNormalization (Some default_bn_mom) (Some default_bn_eps)) ].
Proof.
  destruct (body_succeeds default_recon_vs_gan_weight default_wdecay
              default_bn_mom default_bn_eps eq_refl) as (g & h & Hg).
  exists g, h. split; [exact Hg|].
  exact (proj1 (discarded_layers _ _ _ _ g h Hg)).
Defined.

(** X5: [conv_block] is only ever called with [leaky=True]: no
    [Activation('relu')] layer is constructed, and every LeakyReLU has
    slope 0.2. *)
Theorem only_leaky_relu (w wd bm be : Q) (g : locals) (h : heap) :
  create_models_body w wd bm be empty_heap = Ok (g, h) ->
  Forall (fun l => match layer_cfg l with
                   | Activation _ => False
                   | LeakyReLU a => a = leaky_relu_alpha
                   | _ => True
                   end) (created h) /\
  length (filter (fun l => match layer_cfg l with LeakyReLU _ => true | _ => false end)
            (created h)) = 14%nat.
Proof.
  intros Hg. run_body Hg. split; [|reflexivity].
  repeat (apply Forall_cons; [cbn [layer_cfg]; first [exact I|reflexivity]|]).
  apply Forall_nil.
Qed.

Lemma only_leaky_relu_witness :
  exists g h,
    create_models_body default_recon_vs_gan_weight default_wdecay
      default_bn_mom default_bn_eps empty_heap = Ok (g, h) /\
    length (filter (fun l => match layer_cfg l with LeakyReLU _ => true | _ => false end)
              (created h)) = 14%nat.
Proof.
  destruct (body_succeeds default_recon_vs_gan_weight default_wdecay
              default_bn_mom default_bn_eps eq_refl) as (g & h & Hg).
  exists g, h. split; [exact Hg|].
  exact (proj2 (only_leaky_relu _ _ _ _ g h Hg)).
Defined.



(** X7: [recon_vs_gan_weight] reaches nothing but the loss bound to
    [decoder_train]: for two weights (both different from 1) the same
    layer objects are constructed and the returned tuples agree at every
    position other than [decoder_train]'s, whose inputs, outputs and name
    agree as well. *)
Theorem recon_vs_gan_weight_frame (w w' wd bm be : Q) (g g' : locals) (h h' : heap) :
  create_models_body w wd bm be empty_heap = Ok (g, h) ->
  create_models_body w' wd bm be empty_heap = Ok (g', h') ->
  h = h' /\
  (forall i, i <> 4%nat -> nth_error (returned g) i = nth_error (returned g') i) /\
  nth_error (returned g) 4 = Some (decoder_train g) /\
  inputs (decoder_train g) = inputs (decoder_train g') /\
  outputs (decoder_train g) = outputs (decoder_train g') /\
  model_name (decoder_train g) = model_name (decoder_train g') /\
  dis_nll_loss g = dis_nll_loss g' /\
  losses (decoder_train g) = [Mul (Const (w / (1 - w))) (dis_nll_loss g)] /\
  losses (decoder_train g') = [Mul (Const (w' / (1 - w'))) (dis_nll_loss g)].
Proof.
  intros Hg Hg'. run_body Hg. run_body Hg'.
  split; [reflexivity|]. split.
  - intros i Hi. do 4 (destruct i as [|i]; [reflexivity|]).
    destruct i as [|i]; [contradiction|].
    do 3 (destruct i as [|i]; [reflexivity|]). destruct i; reflexivity.
  - repeat split.
Qed.

Lemma recon_vs_gan_weight_frame_witness :
  exists g g' h h',
    create_models_body default_recon_vs_gan_weight default_wdecay
      default_bn_mom default_bn_eps empty_heap = Ok (g, h) /\
    create_models_body (1 # 2) default_wdecay
      default_bn_mom default_bn_eps empty_heap = Ok (g', h') /\
    h = h' /\ encoder_train g = encoder_train g'.
Proof.
  destruct (body_succeeds default_recon_vs_gan_weight default_wdecay
              default_bn_mom default_bn_eps eq_refl) as (g & h & Hg).
  destruct (body_succeeds (1 # 2) default_wdecay
              default_bn_mom default_bn_eps eq_refl) as (g' & h' & Hg').
  exists g, g', h, h'. split; [exact Hg|]. split; [exact Hg'|].
  destruct (recon_vs_gan_weight_frame _ _ _ _ _ g g' h h' Hg Hg')
    as (Hh & Hr & _).
  split; [exact Hh|].
  specialize (Hr 3%nat). cbn [returned nth_error] in Hr.
  assert (E : Some (encoder_train g) = Some (encoder_train g'))
    by (apply Hr; discriminate).
  injection E as E. exact E.
Defined.

(** X8: [wdecay] reaches nothing but the coefficient of the kernel
    regularizers: two runs that differ in [wdecay] only construct the same
    layer objects up to their kernel regularizer. *)
Theorem wdecay_frame (w wd wd' bm be : Q) (g g' : locals) (h h' : heap) :
  create_models_body w wd bm be empty_heap = Ok (g, h) ->
  create_models_body w wd' bm be empty_heap = Ok (g', h') ->
  map without_regularizer (created h) = map without_regularizer (created h') /\
  Forall2 (fun l l' => kernel_settings (layer_cfg l) = Some (HeUniform, Some (l2 wd))
                       /\ kernel_settings (layer_cfg l') = Some (HeUniform, Some (l2 wd'))
                       \/ l = l')
          (created h) (created h').
Proof.
  intros Hg Hg'. run_body Hg. run_body Hg'. split; [reflexivity|].
  repeat (apply Forall2_cons;
          [first [right; reflexivity | left; split; reflexivity]|]).
  apply Forall2_nil.
Qed.

Lemma wdecay_frame_witness :
  exists g g' h h',
    create_models_body default_recon_vs_gan_weight default_wdecay
      default_bn_mom default_bn_eps empty_heap = Ok (g, h) /\
    create_models_body default_recon_vs_gan_weight 0
      default_bn_mom default_bn_eps empty_heap = Ok (g', h') /\
    map without_regularizer (created h) = map without_regularizer (created h').
Proof.
  destruct (body_succeeds default_recon_vs_gan_weight default_wdecay
              default_bn_mom default_bn_eps eq_refl) as (g & h & Hg).
  destruct (body_succeeds default_recon_vs_gan_weight 0
              default_bn_mom default_bn_eps eq_refl) as (g' & h' & Hg').
  exists g, g', h, h'. split; [exact Hg|]. split; [exact Hg'|].
  exact (proj1 (wdecay_frame _ _ _ _ _ g g' h h' Hg Hg')).
Defined.

(** X9: the name ['input_image'] is given to two different input layers,
    the encoder's own input and the input [x] of the composite graphs; the
    other six names ([sampler], [output_image], [z_mean], [z_log_var],
    [discriminator_input], [z_p]) are given once, and the 45 remaining
    layers are constructed without a [name=] argument. *)
Theorem layer_names (w wd bm be : Q) (g : locals) (h : heap) :
  create_models_body w wd bm be empty_heap = Ok (g, h) ->
  map id_name (filter is_named (created h))
  = [ (0, Some "sampler"); (14, Some "output_image"); (16, Some "input_image");
      (30, Some "z_mean"); (31, Some "z_log_var");
      (32, Some "discriminator_input"); (51, Some "input_image");
      (52, Some "z_p") ]%nat%string /\
  (exists l1 l2,
     inputs (encoder g) = [InputTensor l1] /\ x g = InputTensor l2 /\
     layer_name l1 = layer_name l2 /\ layer_id l1 <> layer_id l2).
Proof.
  intros Hg. run_body Hg. split; [reflexivity|].
  do 2 eexists. cbn [encoder inputs x].
  split; [reflexivity|]. split; [reflexivity|]. split; [reflexivity|discriminate].
Qed.

Lemma layer_names_witness :
  exists g h,
    create_models_body default_recon_vs_gan_weight default_wdecay
      default_bn_mom default_bn_eps empty_heap = Ok (g, h) /\
    exists l1 l2,
      inputs (encoder g) = [InputTensor l1] /\ x g = InputTensor l2 /\
      layer_name l1 = layer_name l2 /\ layer_id l1 <> layer_id l2.
Proof.
  destruct (body_succeeds default_recon_vs_gan_weight default_wdecay
              default_bn_mom default_bn_eps eq_refl) as (g & h & Hg).
  exists g, h. split; [exact Hg|].
  exact (proj2 (layer_names _ _ _ _ g h Hg)).
Defined.

(** X10: graph construction never meets a shape mismatch: every tensor
    that an output or a bound loss of a returned graph is computed from
    has a static shape (in particular the decoder's reshape of the
    [n_decoder] units to 8x8x256 is consistent), and every bound loss is
    a scalar. *)
Theorem all_tensors_well_shaped (w wd bm be : Q) (g : locals) (h : heap) :
  create_models_body w wd bm be empty_heap = Ok (g, h) ->
  Forall (fun t => int_shape t <> None)
         (flat_map subtensors
            (flat_map (fun m => outputs m ++ losses m) (returned g))) /\
  Forall (fun t => int_shape t = Some []) (flat_map losses (returned g)) /\
  length (flat_map losses (returned g)) = 3%nat.
Proof.
  intros Hg. split; [|split].
  - assert (H : forallb well_shaped
                  (flat_map subtensors
                     (flat_map (fun m => outputs m ++ losses m) (returned g)))
                = true).
    { run_body Hg. vm_compute. reflexivity. }
    rewrite forallb_forall in H. apply Forall_forall. intros t Ht.
    specialize (H t Ht). unfold well_shaped in H.
    destruct (int_shape t); [discriminate|discriminate].
  - run_body Hg. repeat constructor.
  - run_body Hg. reflexivity.
Qed.

Lemma all_tensors_well_shaped_witness :
  exists g h,
    create_models_body default_recon_vs_gan_weight default_wdecay
      default_bn_mom default_bn_eps empty_heap = Ok (g, h) /\
    Forall (fun t => int_shape t = Some []) (flat_map losses (returned g)).
Proof.
  destruct (body_succeeds default_recon_vs_gan_weight default_wdecay
              default_bn_mom default_bn_eps eq_refl) as (g & h & Hg).
  exists g, h. split; [exact Hg|].
  exact (proj1 (proj2 (all_tensors_well_shaped _ _ _ _ g h Hg))).
Defined.

(** *** Failures of the sampler *)

(** X13: [sampling] raises [ValueError] unless it is given exactly two
    tensors and [IndexError] when the mean has the batch axis only.
    Whenever it returns, it has constructed no layer object and the
    tensor returned is [z_mean + exp(0.5 * z_log_var) * epsilon], where
    the width of [epsilon] is the static second dimension of [z_mean]. *)
Theorem sampling_failures :
  (forall (args : list tensor) (h : heap),
     length args <> 2%nat -> sampling args h = Raise ValueError) /\
  (forall (zm zlv : tensor) (b : option N) (h : heap),
     int_shape zm = Some [b] -> sampling [zm; zlv] h = Raise IndexError) /\
  (forall (args : list tensor) (h h' : heap) (t : tensor),
     sampling args h = Ok (t, h') ->
     h' = h /\
     exists zm zlv s d,
       args = [zm; zlv] /\ int_shape zm = Some s /\
       nth_error s 1 = Some (Some d) /\
       t = Add zm (Mul (Exp (Mul (Const 0.5) zlv)) (RandomNormal zm d))).
Proof.
  split; [|split].
  - intros args h Hl. unfold sampling, bind, py_unpack2.
    destruct args as [|a [|b [|c args]]]; try reflexivity.
    exfalso. apply Hl. reflexivity.
  - intros zm zlv b h Hs. unfold sampling, bind, py_unpack2, ret.
    rewrite Hs. reflexivity.
  - intros args h h' t H. unfold sampling, bind, py_unpack2, ret, raise in H.
    destruct args as [|a [|b [|c args]]]; try discriminate.
    destruct (int_shape a) as [s|] eqn:Hs; [|discriminate].
    unfold py_index, ret, raise in H.
    destruct (nth_error s 1) as [[dim|]|] eqn:Hd; try discriminate.
    injection H as <- <-. split; [reflexivity|].
    exists a, b, s, dim. repeat split; assumption || reflexivity.
Qed.

Lemma sampling_failures_witness :
  sampling [Const 1] empty_heap = Raise ValueError /\
  sampling [InputTensor (mkLayer 0 None (InputLayer [])); Const 1] empty_heap
  = Raise IndexError.
Proof.
  destruct sampling_failures as (H1 & H2 & _). split.
  - apply H1. discriminate.
  - apply (H2 _ _ None). reflexivity.
Defined.

(** *** What each graph depends on *)

Definition agree_on {params : Type} (ids : list nat) (W W' : weights params) : Prop :=
  forall id, In id ids -> W id = W' id.

Definition fed_alike (ls : list layer) (feed feed' : feed_dict) : Prop :=
  forall l, In l ls -> feed (layer_id l) = feed' (layer_id l).

Section Dependencies.

Variable params : Type.
Variable layer_fwd : layer_config -> params -> ndarray -> ndarray.
Variable nll : ndarray -> ndarray -> R.

(** A noise-free tensor has the same value under weights that agree on
    its layers, feeds that agree on its inputs, and any two noise draws. *)
Lemma eval_depends_on (W W' : weights params) (feed feed' : feed_dict)
  (eps eps' : ndarray) (t : tensor) (ids : list nat) :
  noise_free t = true ->
  included (map layer_id (tensor_layers t)) ids = true ->
  agree_on ids W W' ->
  fed_alike (tensor_inputs t) feed feed' ->
  eval layer_fwd nll W feed eps t = eval layer_fwd nll W' feed' eps' t.
Proof.
  intros Hn Hi HW Hf.
  rewrite (eval_noise_free _ layer_fwd nll W feed eps eps' t Hn).
  apply eval_ext; [|exact Hf].
  intros l Hl. apply HW. apply (included_incl _ _ Hi).
  apply in_map, Hl.
Qed.

(** X14: the KL loss is a function of the image and of the encoder's
    weights only: it does not depend on the noise draw, on the value fed
    to [z_p] or on any weight of the decoder or the discriminator.  The
    feature-similarity loss, in contrast, is computed from the noise. *)
Theorem kl_loss_depends_on_encoder_only (w wd bm be : Q) (g : locals) (h : heap)
  (W W' : weights params) (xv zpv eps eps' : ndarray) :
  create_models_body w wd bm be empty_heap = Ok (g, h) ->
  agree_on (model_layer_ids (encoder g)) W W' ->
  eval layer_fwd nll W (feed_of [x g] [xv]) eps (kl_loss g)
  = eval layer_fwd nll W' (feed_of [x g; z_p g] [xv; zpv]) eps' (kl_loss g) /\
  noise_free (kl_loss g) = true /\
  noise_free (dis_nll_loss g) = false.
Proof.
  intros Hg HW. split; [|split].
  - apply (eval_depends_on W W' _ _ eps eps' _ (model_layer_ids (encoder g)));
      [| |exact HW|]; clear HW.
    + run_body Hg. reflexivity.
    + run_body Hg. vm_compute. reflexivity.
    + assert (H : Forall (fun l => layer_id l = 51%nat) (tensor_inputs (kl_loss g))
                  /\ x g = InputTensor (mkLayer 51 (Some "input_image"%string)
                                          (InputLayer image_shape))
                  /\ z_p g = InputTensor (mkLayer 52 (Some "z_p"%string)
                                            (InputLayer [latent_dim]))).
      { run_body Hg. cbn [kl_loss tensor_inputs app x z_p].
        split; [repeat constructor|split; reflexivity]. }
      destruct H as (H & Hx & Hzp). rewrite Forall_forall in H.
      intros l Hl. rewrite (H l Hl), Hx, Hzp. reflexivity.
  - run_body Hg. reflexivity.
  - run_body Hg. reflexivity.
Qed.

(** X15: the second output of [decoder_train], the realism score of the
    pure generation, is a function of the prior sample fed to [z_p] and of
    the weights of the decoder and the discriminator only: it depends
    neither on the image, nor on the noise draw, nor on the encoder. *)
Theorem generation_score_depends_on_prior_only (w wd bm be : Q) (g : locals)
  (h : heap) (W W' : weights params) (xv xv' zpv eps eps' : ndarray) :
  create_models_body w wd bm be empty_heap = Ok (g, h) ->
  agree_on (model_layer_ids (decoder g) ++ model_layer_ids (discriminator g)) W W' ->
  predict_output layer_fwd nll W (decoder_train g) [xv; zpv] eps 1
  = predict_output layer_fwd nll W' (decoder_train g) [xv'; zpv] eps' 1 /\
  predict_output layer_fwd nll W (decoder_train g) [xv; zpv] eps 1
  = bind_opt (predict_output layer_fwd nll W (decoder g) [zpv] eps 0) (fun xp =>
      predict_output layer_fwd nll W (discriminator g) [xp] eps 0).
Proof.
  intros Hg HW. split.
  - assert (H : exists t,
               nth_error (outputs (decoder_train g)) 1 = Some t /\
               noise_free t = true /\
               included (map layer_id (tensor_layers t))
                 (model_layer_ids (decoder g) ++ model_layer_ids (discriminator g))
               = true /\
               Forall (fun l => layer_id l = 52%nat) (tensor_inputs t)).
    { clear HW. run_body Hg. eexists. cbn [decoder_train outputs nth_error].
      split; [reflexivity|]. split; [reflexivity|].
      split; [vm_compute; reflexivity|].
      cbn [tensor_inputs app]. repeat constructor. }
    destruct H as (t & Ht & Hn & Hi & Hf).
    assert (Hin : inputs (decoder_train g)
                  = [InputTensor (mkLayer 51 (Some "input_image"%string)
                                    (InputLayer image_shape));
                     InputTensor (mkLayer 52 (Some "z_p"%string)
                                    (InputLayer [latent_dim]))]).
    { clear HW. run_body Hg. reflexivity. }
    unfold predict_output. rewrite Ht, Hin. cbn [bind_opt].
    apply (eval_depends_on W W' _ _ eps eps' t _ Hn Hi HW).
    rewrite Forall_forall in Hf. intros l Hl. rewrite (Hf l Hl). reflexivity.
  - clear HW. pose proof (create_models_wiring w wd bm be g h Hg) as Hw. clear Hg.
    destruct (w_x Hw) as (lx & Hx & _ & Hdin & _).
    destruct (w_z_p Hw) as (lzp & lx' & Hzp & Hx' & Hne).
    rewrite Hx in Hx'. injection Hx' as <-.
    destruct (w_discriminator Hw) as (ldis & d & d_feat & _ & Hdo & _ & Hto & _).
    unfold predict_output at 1. rewrite Hto, Hdin. cbn [nth_error bind_opt].
    rewrite (eval_score _ layer_fwd nll g W W _ eps (x_p g) d d_feat Hw
               (fun _ _ => eq_refl) Hdo).
    rewrite (eval_x_p _ layer_fwd nll g W _ zpv eps Hw); [reflexivity|].
    intros l Hl. rewrite Hzp in Hl. injection Hl as <-. rewrite Hx, Hzp.
    cbn [feed_of]. apply Nat.eqb_neq in Hne. now rewrite Hne, Nat.eqb_refl.
Qed.

End Dependencies.

Lemma kl_loss_depends_on_encoder_only_witness :
  exists g h,
    create_models_body default_recon_vs_gan_weight default_wdecay
      default_bn_mom default_bn_eps empty_heap = Ok (g, h) /\
    eval identity_fwd constant_nll unit_weights
      (feed_of [x g] [zero_batch]) zero_batch (kl_loss g)
    = eval identity_fwd constant_nll unit_weights
        (feed_of [x g; z_p g] [zero_batch; one_batch]) one_batch (kl_loss g).
Proof.
  destruct (body_succeeds default_recon_vs_gan_weight default_wdecay
              default_bn_mom default_bn_eps eq_refl) as (g & h & Hg).
  exists g, h. split; [exact Hg|].
  exact (proj1 (kl_loss_depends_on_encoder_only unit identity_fwd constant_nll
                  _ _ _ _ g h unit_weights unit_weights zero_batch one_batch
                  zero_batch one_batch Hg (fun _ _ => eq_refl))).
Defined.

Lemma generation_score_depends_on_prior_only_witness :
  exists g h,
    create_models_body default_recon_vs_gan_weight default_wdecay
      default_bn_mom default_bn_eps empty_heap = Ok (g, h) /\
    predict_output identity_fwd constant_nll unit_weights (decoder_train g)
      [zero_batch; zero_batch] zero_batch 1
    = predict_output identity_fwd constant_nll unit_weights (decoder_train g)
        [one_batch; zero_batch] one_batch 1.
Proof.
  destruct (body_succeeds default_recon_vs_gan_weight default_wdecay
              default_bn_mom default_bn_eps eq_refl) as (g & h & Hg).
  exists g, h. split; [exact Hg|].
  exact (proj1 (generation_score_depends_on_prior_only unit identity_fwd
                  constant_nll _ _ _ _ g h unit_weights unit_weights
                  zero_batch one_batch zero_batch zero_batch one_batch Hg
                  (fun _ _ => eq_refl))).
Defined.

(** *** How the composite graphs compose the three networks *)

Lemma composite_wiring (w wd bm be : Q) (g : locals) (h : heap) :
  create_models_body w wd bm be empty_heap = Ok (g, h) ->
  exists ldis d d_feat,
    inputs (discriminator g) = [InputTensor ldis] /\
    outputs (discriminator g) = [d; d_feat] /\
    tensor_inputs d_feat = [ldis] /\
    inputs (encoder_train g) = [x g] /\
    outputs (encoder_train g)
      = [subst (inputs (discriminator g)) [x_tilde g] d_feat] /\
    inputs (vaegan g) = [x g] /\
    outputs (vaegan g) = [subst (inputs (discriminator g)) [x_tilde g] d] /\
    inputs (discriminator_train g) = [x g; z_p g] /\
    outputs (discriminator_train g)
      = [subst (inputs (discriminator g)) [x g] d;
         subst (inputs (discriminator g)) [x_tilde g] d;
         subst (inputs (discriminator g)) [x_p g] d].
Proof.
  intros Hg. run_body Hg. do 3 eexists.
  cbn [discriminator encoder_train vaegan discriminator_train inputs outputs
       x z_p x_tilde x_p].
  repeat (split; [reflexivity|]). reflexivity.
Qed.

Section Composition.

Variable params : Type.
Variable layer_fwd : layer_config -> params -> ndarray -> ndarray.
Variable nll : ndarray -> ndarray -> R.

(** X16: for every image, prior sample, noise draw and weights, [vaegan]
    is the discriminator's score of [vae]'s reconstruction and
    [encoder_train]'s output is the discriminator's feature tensor of that
    reconstruction; the first output of [decoder_train] is [vaegan]'s
    output, and the three outputs of [discriminator_train] are the
    standalone discriminator's score of the image followed by the two
    outputs of [decoder_train]. *)
Theorem composites_compose (w wd bm be : Q) (g : locals) (h : heap)
  (W : weights params) (xv zpv eps : ndarray) :
  create_models_body w wd bm be empty_heap = Ok (g, h) ->
  let recon := predict_output layer_fwd nll W (vae g) [xv] eps 0 in
  predict_output layer_fwd nll W (vaegan g) [xv] eps 0
  = bind_opt recon (fun xt =>
      predict_output layer_fwd nll W (discriminator g) [xt] eps 0) /\
  predict_output layer_fwd nll W (encoder_train g) [xv] eps 0
  = bind_opt recon (fun xt =>
      predict_output layer_fwd nll W (discriminator g) [xt] eps 1) /\
  predict_output layer_fwd nll W (decoder_train g) [xv; zpv] eps 0
  = predict_output layer_fwd nll W (vaegan g) [xv] eps 0 /\
  predict_output layer_fwd nll W (discriminator_train g) [xv; zpv] eps 0
  = predict_output layer_fwd nll W (discriminator g) [xv] eps 0 /\
  predict_output layer_fwd nll W (discriminator_train g) [xv; zpv] eps 1
  = predict_output layer_fwd nll W (decoder_train g) [xv; zpv] eps 0 /\
  predict_output layer_fwd nll W (discriminator_train g) [xv; zpv] eps 2
  = predict_output layer_fwd nll W (decoder_train g) [xv; zpv] eps 1.
Proof.
  intros Hg recon. subst recon.
  pose proof (create_models_wiring w wd bm be g h Hg) as Hw.
  destruct (composite_wiring w wd bm be g h Hg)
    as (ldis & d & d_feat & Hdi & Hdo & Hfi & Hei & Heo & Hgi & Hgo & Hti & Hto).
  clear Hg.
  destruct (w_x Hw) as (lx & Hx & Hvin & Hdin & _).
  destruct (w_z_p Hw) as (lzp & lx' & Hzp & Hx' & Hne).
  rewrite Hx in Hx'. injection Hx' as <-.
  destruct (w_discriminator Hw) as (ldis' & d' & f' & _ & Hdo' & _ & Hdto & _).
  rewrite Hdo in Hdo'. injection Hdo' as <- <-.
  destruct (w_latent Hw) as (Hvo & _).
  assert (Hsame : forall id, ~ In id (model_layer_ids (decoder g)) -> W id = W id)
    by reflexivity.
  assert (Hf1 : forall l, x g = InputTensor l ->
                  feed_of [x g] [xv] (layer_id l) = Some xv).
  { intros l Hl. rewrite Hx in Hl. injection Hl as <-. rewrite Hx.
    cbn [feed_of]. now rewrite Nat.eqb_refl. }
  assert (Hf2 : forall l, x g = InputTensor l ->
                  feed_of [x g; z_p g] [xv; zpv] (layer_id l) = Some xv).
  { intros l Hl. rewrite Hx in Hl. injection Hl as <-. rewrite Hx.
    cbn [feed_of]. now rewrite Nat.eqb_refl. }
  assert (Hvae : predict_output layer_fwd nll W (vae g) [xv] eps 0
                 = eval layer_fwd nll W (feed_of [x g] [xv]) eps (x_tilde g)).
  { unfold predict_output. rewrite Hvo, Hvin. reflexivity. }
  assert (Hgan : predict_output layer_fwd nll W (vaegan g) [xv] eps 0
                 = bind_opt (predict_output layer_fwd nll W (vae g) [xv] eps 0)
                     (fun xt => predict_output layer_fwd nll W (discriminator g)
                                  [xt] eps 0)).
  { rewrite Hvae. unfold predict_output at 1. rewrite Hgo, Hgi.
    cbn [nth_error bind_opt].
    apply (eval_score _ layer_fwd nll g W W _ eps (x_tilde g) d d_feat Hw Hsame Hdo). }
  split; [exact Hgan|]. split; [|split; [|split; [|split]]].
  - rewrite Hvae. unfold predict_output at 1. rewrite Heo, Hei.
    cbn [nth_error bind_opt].
    rewrite (eval_call _ layer_fwd nll W W _ eps (discriminator g) ldis
               (x_tilde g) d_feat Hdi).
    + unfold predict_output. rewrite Hdo. reflexivity.
    + rewrite Hfi. discriminate.
    + intros l Hl. rewrite Hfi in Hl. destruct Hl as [<-|[]]. reflexivity.
    + reflexivity.
  - rewrite Hgan, Hvae. unfold predict_output at 1. rewrite Hdto, Hdin.
    cbn [nth_error bind_opt].
    rewrite (eval_score _ layer_fwd nll g W W _ eps (x_tilde g) d d_feat Hw Hsame Hdo).
    rewrite (eval_x_tilde _ layer_fwd nll g W W _ xv eps Hw Hsame Hf2).
    rewrite (eval_x_tilde _ layer_fwd nll g W W _ xv eps Hw Hsame Hf1).
    reflexivity.
  - unfold predict_output at 1. rewrite Hto, Hti. cbn [nth_error bind_opt].
    rewrite (eval_score _ layer_fwd nll g W W _ eps (x g) d d_feat Hw Hsame Hdo).
    rewrite Hx at 2. cbn [eval]. rewrite (Hf2 lx Hx). reflexivity.
  - unfold predict_output. rewrite Hto, Hti, Hdto, Hdin. reflexivity.
  - unfold predict_output. rewrite Hto, Hti, Hdto, Hdin. reflexivity.
Qed.

End Composition.

Lemma composites_compose_witness :
  exists g h,
    create_models_body default_recon_vs_gan_weight default_wdecay
      default_bn_mom default_bn_eps empty_heap = Ok (g, h) /\
    predict_output identity_fwd constant_nll unit_weights (decoder_train g)
      [zero_batch; one_batch] zero_batch 0
    = predict_output identity_fwd constant_nll unit_weights (vaegan g)
        [zero_batch] zero_batch 0.
Proof.
  destruct (body_succeeds default_recon_vs_gan_weight default_wdecay
              default_bn_mom default_bn_eps eq_refl) as (g & h & Hg).
  exists g, h. split; [exact Hg|].
  exact (proj1 (proj2 (proj2
    (composites_compose unit identity_fwd constant_nll _ _ _ _ g h
       unit_weights zero_batch one_batch zero_batch Hg)))).
Defined.

(** *** Output ranges *)

(** The [activation=] argument of a layer, or the function of an
    [Activation] layer. *)
Definition output_activation (c : layer_config) : option activation_fn :=
  match c with
  | Conv2D _ _ _ _ a _ _ => Some a
  | Conv2DTranspose _ _ _ _ a _ _ => Some a
  | Dense _ a _ _ => Some a
  | Activation a => Some a
  | _ => None
  end.

Definition entries_within (lo hi : R) (v : ndarray) : Prop :=
  Forall (fun r => lo <= r <= hi)%R (nd_data v).

(** The layer a tensor is the output of. *)
Definition producer (t : tensor) : option layer :=
  match t with Apply l _ => Some l | _ => None end.

Definition produced_by (a : activation_fn) (t : tensor) : Prop :=
  exists l, producer t = Some l /\ output_activation (layer_cfg l) = Some a.

Section Ranges.

Variable params : Type.
Variable layer_fwd : layer_config -> params -> ndarray -> ndarray.
Variable nll : ndarray -> ndarray -> R.

(** What the framework guarantees of its activations. *)
Hypothesis tanh_range : forall c p v,
  output_activation c = Some Tanh -> entries_within (-1) 1 (layer_fwd c p v).
Hypothesis sigmoid_range : forall c p v,
  output_activation c = Some Sigmoid -> entries_within 0 1 (layer_fwd c p v).

Lemma eval_tanh_output (W : weights params) (feed : feed_dict) (eps : ndarray)
  (t : tensor) (v : ndarray) :
  produced_by Tanh t -> eval layer_fwd nll W feed eps t = Some v ->
  entries_within (-1) 1 v.
Proof.
  intros (l & Hp & Ha) Hv. destruct t; try discriminate.
  injection Hp as ->. cbn [eval] in Hv.
  destruct (eval layer_fwd nll W feed eps t); [|discriminate].
  injection Hv as <-. apply tanh_range, Ha.
Qed.

Lemma eval_sigmoid_output (W : weights params) (feed : feed_dict) (eps : ndarray)
  (t : tensor) (v : ndarray) :
  produced_by Sigmoid t -> eval layer_fwd nll W feed eps t = Some v ->
  entries_within 0 1 v.
Proof.
  intros (l & Hp & Ha) Hv. destruct t; try discriminate.
  injection Hp as ->. cbn [eval] in Hv.
  destruct (eval layer_fwd nll W feed eps t); [|discriminate].
  injection Hv as <-. apply sigmoid_range, Ha.
Qed.

(** X17: the image outputs (of [decoder] and [vae]) come out of the
    [tanh] convolution and the score outputs (first output of
    [discriminator], [vaegan], both outputs of [decoder_train], all three
    of [discriminator_train]) out of the [sigmoid] dense layer.  So, in a
    framework whose [tanh] layers return entries in [-1,1] and whose
    [sigmoid] layers return entries in [0,1], every image these graphs
    return lies in [-1,1] and every score in [0,1], for all weights and
    inputs. *)
Theorem outputs_lie_in_activation_range (w wd bm be : Q) (g : locals) (h : heap)
  (W : weights params) (vs : list ndarray) (eps : ndarray) (i : nat) (v : ndarray) :
  create_models_body w wd bm be empty_heap = Ok (g, h) ->
  (forall m, In m [decoder g; vae g] ->
     predict_output layer_fwd nll W m vs eps i = Some v ->
     entries_within (-1) 1 v) /\
  (forall m, In m [vaegan g; decoder_train g; discriminator_train g] ->
     predict_output layer_fwd nll W m vs eps i = Some v ->
     entries_within 0 1 v) /\
  (predict_output layer_fwd nll W (discriminator g) vs eps 0 = Some v ->
   entries_within 0 1 v).
Proof.
  intros Hg.
  assert (H : Forall (produced_by Tanh) (outputs (decoder g) ++ outputs (vae g)) /\
              Forall (produced_by Sigmoid)
                (outputs (vaegan g) ++ outputs (decoder_train g)
                 ++ outputs (discriminator_train g)) /\
              (exists d, nth_error (outputs (discriminator g)) 0 = Some d /\
                         produced_by Sigmoid d)).
  { run_body Hg.
    cbn [decoder vae vaegan decoder_train discriminator_train discriminator
         outputs app nth_error].
    split; [|split].
    - repeat (apply Forall_cons; [eexists; split; reflexivity|]). apply Forall_nil.
    - repeat (apply Forall_cons; [eexists; split; reflexivity|]). apply Forall_nil.
    - eexists. split; [reflexivity|]. eexists; split; reflexivity. }
  clear Hg. destruct H as (Ht & Hs & d & Hd & Hds).
  rewrite Forall_forall in Ht, Hs.
  split; [|split].
  - intros m Hm Hv. unfold predict_output in Hv.
    destruct (nth_error (outputs m) i) as [t|] eqn:E; [|discriminate].
    cbn [bind_opt] in Hv. apply nth_error_In in E.
    apply (eval_tanh_output W (feed_of (inputs m) vs) eps t v); [|exact Hv].
    apply Ht. destruct Hm as [<-|[<-|[]]]; apply in_or_app; auto.
  - intros m Hm Hv. unfold predict_output in Hv.
    destruct (nth_error (outputs m) i) as [t|] eqn:E; [|discriminate].
    cbn [bind_opt] in Hv. apply nth_error_In in E.
    apply (eval_sigmoid_output W (feed_of (inputs m) vs) eps t v); [|exact Hv].
    apply Hs. destruct Hm as [<-|[<-|[<-|[]]]];
      repeat (apply in_or_app; auto; right); apply in_or_app; auto.
  - intros Hv. unfold predict_output in Hv. rewrite Hd in Hv.
    cbn [bind_opt] in Hv. exact (eval_sigmoid_output W _ eps d v Hds Hv).
Qed.

End Ranges.

(** A framework whose layers return a batch of zeros. *)
Definition zero_fwd (c : layer_config) (p : unit) (v : ndarray) : ndarray :=
  zero_batch.

Lemma zero_fwd_within (lo hi : R) (c : layer_config) (p : unit) (v : ndarray) :
  (lo <= 0 <= hi)%R -> entries_within lo hi (zero_fwd c p v).
Proof.
  intros H. unfold entries_within, zero_fwd, zero_batch. cbn [nd_data].
  apply Forall_forall. intros r Hr. apply repeat_spec in Hr. subst. exact H.
Qed.

Lemma outputs_lie_in_activation_range_witness :
  exists g h,
    create_models_body default_recon_vs_gan_weight default_wdecay
      default_bn_mom default_bn_eps empty_heap = Ok (g, h) /\
    entries_within (-1) 1 zero_batch.
Proof.
  destruct (body_succeeds default_recon_vs_gan_weight default_wdecay
              default_bn_mom default_bn_eps eq_refl) as (g & h & Hg).
  exists g, h. split; [exact Hg|].
  refine (proj1 (outputs_lie_in_activation_range unit zero_fwd constant_nll
                   _ _ _ _ _ _ g h unit_weights [zero_batch] zero_batch 0%nat
                   zero_batch Hg) (vae g) _ _).
  - intros c p v _. apply zero_fwd_within. lra.
  - intros c p v _. apply zero_fwd_within. lra.
  - right. left. reflexivity.
  - run_body Hg. reflexivity.
Defined.

(** *** The normalized weight *)

Lemma normalized_sign (w : Q) :
  ~ w == 1 -> (0 <= w / (1 - w) <-> 0 <= w /\ w < 1).
Proof.
  intros Hne.
  assert (Hd : ~ 1 - w == 0) by (intros E; apply Hne; Lqa.lra).
  destruct (Qlt_le_dec w 1) as [Hlt|Hge].
  - assert (Hp : 0 < 1 - w) by Lqa.lra.
    split.
    + intros H. split; [|exact Hlt].
      apply (Qmult_le_compat_r _ _ (1 - w)) in H; [|Lqa.lra].
      rewrite Qmult_0_l in H. rewrite Qmult_comm, Qmult_div_r in H by exact Hd.
      exact H.
    + intros [H0 _]. apply Qle_shift_div_l; [exact Hp|]. Lqa.lra.
  - assert (Hgt : 1 < w).
    { destruct (Qeq_dec w 1) as [E|E]; [contradiction|].
      apply Qle_lteq in Hge. destruct Hge as [Hge|Hge]; [exact Hge|].
      exfalso. apply E. symmetry. exact Hge. }
    split; [|intros [_ H]; Lqa.lra].
    intros H. exfalso.
    assert (Hn : 0 < w - 1) by Lqa.lra.
    assert (E : w / (1 - w) == - (w / (w - 1))).
    { field. split; intros E'; Lqa.lra. }
    rewrite E in H.
    assert (0 < w / (w - 1)); [|Lqa.lra].
    apply Qlt_shift_div_l; [exact Hn|]. Lqa.lra.
Qed.

(** X18: [recon_vs_gan_weight] is not checked: every weight other than
    1 is accepted, and the factor [normalized_weight] of the loss bound
    to [decoder_train] is non-negative exactly for the weights with
    [0 <= w < 1]; a weight above 1 or below 0 gives the loss a negative
    factor. *)
Theorem normalized_weight_sign (w wd bm be : Q) :
  ~ w == 1 ->
  exists g h,
    create_models_body w wd bm be empty_heap = Ok (g, h) /\
    losses (decoder_train g)
      = [Mul (Const (normalized_weight g)) (dis_nll_loss g)] /\
    (0 <= normalized_weight g <-> 0 <= w /\ w < 1).
Proof.
  intros Hne.
  destruct (body_succeeds w wd bm be (divisor_nonzero w Hne)) as (g & h & Hg).
  exists g, h. split; [exact Hg|].
  assert (Hn : normalized_weight g = w / (1 - w) /\
               losses (decoder_train g)
               = [Mul (Const (normalized_weight g)) (dis_nll_loss g)]).
  { run_body Hg. split; reflexivity. }
  destruct Hn as [Hn Hl]. split; [exact Hl|]. rewrite Hn.
  apply normalized_sign, Hne.
Qed.

Lemma normalized_weight_sign_witness :
  exists g h,
    create_models_body 2 default_wdecay default_bn_mom default_bn_eps
      empty_heap = Ok (g, h) /\
    ~ 0 <= normalized_weight g.
Proof.
  destruct (normalized_weight_sign 2 default_wdecay default_bn_mom
              default_bn_eps) as (g & h & Hg & _ & Hs).
  - discriminate.
  - exists g, h. split; [exact Hg|].
    intros H. apply Hs in H. destruct H as [_ H]. discriminate H.
Defined.
